(** * Landing Zone Accelerator: organizations constructs and the pipeline

    A shallow embedding of three construct classes of the accelerator,

    - [EnableAwsServiceAccess]  (constructs/lib/aws-organizations),
    - [OrganizationalUnit]      (constructs/lib/aws-organizations),
    - [AcceleratorPipeline]     (accelerator/lib/pipeline.ts),

    over a small model of the construct tree of the CDK.  Constructors are
    computations in a state-and-exception monad over the construct tree and
    the one static field of the code base,
    [OrganizationalUnit.isLogGroupConfigured]. *)

From Stdlib Require Import ZArith.
From stdpp Require Import base option list strings gmap.

Set Warnings "-clear-no-such-hyp".

Open Scope string_scope.

(** ** State and exceptions

    A constructor runs on a mutable state and may throw; [None] is a thrown
    error, which ends synthesis. *)

Definition StateErr (S A : Type) : Type := S → option (A * S).

#[global] Instance StateErr_ret {S} : MRet (StateErr S) := λ A a s, Some (a, s).
#[global] Instance StateErr_bind {S} : MBind (StateErr S) := λ A B f m s,
  match m s with
  | Some (a, s') => f a s'
  | None => None
  end.

Definition throw {S A} : StateErr S A := λ _, None.

(** ** The construct tree of the framework *)

Module Cdk.

(** A construct is named by its own id followed by the ids of its scopes,
    innermost first; the root of the tree is [[]]. *)
Abbreviation Path := (list string).

(** Values of template properties.  A token ([resource.ref],
    [resource.getAtt], a pseudo parameter) stays symbolic. *)
Inductive CfnValue :=
  | VStr (s : string)
  | VPseudo (name : string)
  | VRef (target : Path)
  | VGetAtt (target : Path) (attribute : string)
  | VConcat (a b : CfnValue).

(** [cdk.Aws.PARTITION] *)
Definition Aws_PARTITION : CfnValue := VPseudo "AWS::Partition".

Record PolicyStatement := {
  Effect : string;
  Action : list string;
  Resource : string;
}.

Record CustomResourceProviderProps := {
  codeDirectory : string;
  runtime : string;
  policyStatements : list PolicyStatement;
}.

(** [serviceToken] is [None] when the code passes [undefined]. *)
Record CustomResourceProps := {
  resourceType : string;
  serviceToken : option CfnValue;
  properties : list (string * CfnValue);
}.

Record Key := { keyArn : string }.

Inductive RemovalPolicy := DESTROY | RETAIN | SNAPSHOT.

Record LogGroupProps := {
  logGroupName : CfnValue;
  retention : Z;
  encryptionKey : Key;
  removalPolicy : RemovalPolicy;
}.

Inductive Node :=
  | App
  | Stack
  | Plain
  | Instance (className : string)
  | CustomResourceProvider (props : CustomResourceProviderProps)
  | ProviderRole (policy : list PolicyStatement)
  | ProviderHandler (handlerRuntime : string) (code : string)
  | CustomResource (props : CustomResourceProps) (dependencies : list Path)
  | LogGroup (props : LogGroupProps).

(** The state of one synthesis process. *)
Record World := {
  isLogGroupConfigured : bool;
  tree : gmap Path Node;
}.

Definition initial : World :=
  {| isLogGroupConfigured := false; tree := {[ [] := App ]} |}.

Abbreviation M := (StateErr World).

Definition getTree : M (gmap Path Node) := λ w, Some (tree w, w).
Definition modifyTree (f : gmap Path Node → gmap Path Node) : M unit :=
  λ w, Some ((), {| isLogGroupConfigured := isLogGroupConfigured w;
                    tree := f (tree w) |}).
Definition getIsLogGroupConfigured : M bool :=
  λ w, Some (isLogGroupConfigured w, w).
Definition setIsLogGroupConfigured (b : bool) : M unit :=
  λ w, Some ((), {| isLogGroupConfigured := b; tree := tree w |}).

(** [new Construct(scope, id)]: the child is attached to its scope, which
    must be a construct of the tree; a second child of the same id in one
    scope is an error. *)
Definition newConstruct (scope : Path) (id : string) (n : Node) : M Path :=
  t ← getTree;
  match t !! scope, t !! (id :: scope) with
  | Some _, None => _ ← modifyTree (insert (id :: scope) n); mret (id :: scope)
  | _, _ => throw
  end.

(** [Stack.of(construct)]: the nearest enclosing stack. *)
Fixpoint stackOf (t : gmap Path Node) (p : Path) : option Path :=
  match t !! p with
  | Some Stack => Some p
  | _ => match p with
         | [] => None
         | _ :: scope => stackOf t scope
         end
  end.

Definition Stack_of (p : Path) : M Path :=
  t ← getTree;
  match stackOf t p with
  | Some s => mret s
  | None => throw
  end.

(** [scope.node.tryFindChild(id)] and [scope.node.findChild(id)] *)
Definition tryFindChild (scope : Path) (id : string) : M (option Path) :=
  t ← getTree;
  mret (match t !! (id :: scope) with
        | Some _ => Some (id :: scope)
        | None => None
        end).

Definition findChild (scope : Path) (id : string) : M Path :=
  c ← tryFindChild scope id;
  match c with
  | Some p => mret p
  | None => throw
  end.

(** [new CustomResourceProvider(scope, id, props)]: the provider with its
    execution role, which carries the policy statements, and its handler
    function. *)
Definition newCustomResourceProvider (scope : Path) (id : string)
    (props : CustomResourceProviderProps) : M Path :=
  this ← newConstruct scope id (CustomResourceProvider props);
  _ ← newConstruct this "Role" (ProviderRole (policyStatements props));
  _ ← newConstruct this "Handler"
        (ProviderHandler (runtime props) (codeDirectory props));
  mret this.

(** [CustomResourceProvider.getOrCreateProvider(scope, uniqueid, props)] *)
Definition providerId (uniqueid : string) : string :=
  uniqueid +:+ "CustomResourceProvider".

Definition getOrCreateProvider (scope : Path) (uniqueid : string)
    (props : CustomResourceProviderProps) : M Path :=
  let id := providerId uniqueid in
  stack ← Stack_of scope;
  existing ← tryFindChild stack id;
  match existing with
  | Some provider => mret provider
  | None => newCustomResourceProvider stack id props
  end.

(** [provider.serviceToken]: the Arn of the handler; reading the field of a
    construct that is no provider yields [undefined]. *)
Definition tokenOf (t : gmap Path Node) (provider : Path) : option CfnValue :=
  match t !! provider with
  | Some (CustomResourceProvider _) => Some (VGetAtt ("Handler" :: provider) "Arn")
  | _ => None
  end.

Definition get_serviceToken (provider : Path) : M (option CfnValue) :=
  t ← getTree; mret (tokenOf t provider).

Definition newCustomResource (scope : Path) (id : string)
    (props : CustomResourceProps) : M Path :=
  newConstruct scope id (CustomResource props []).

(** [new LogGroup(scope, id, props)]: a retention that is not positive is
    refused. *)
Definition newLogGroup (scope : Path) (id : string) (props : LogGroupProps)
    : M Path :=
  if (retention props <=? 0)%Z then throw
  else newConstruct scope id (LogGroup props).

(** [construct.node.addDependency(dep)]; the tree records the dependencies
    of custom resources. *)
Definition addDep (dep : Path) (n : Node) : Node :=
  match n with
  | CustomResource props deps => CustomResource props (deps ++ [dep])
  | _ => n
  end.

Definition addDependency (construct dep : Path) : M unit :=
  modifyTree (alter (addDep dep) construct).

(** [resource.ref] and [resource.getAttString(name)] *)
Definition ref (resource : Path) : CfnValue := VRef resource.
Definition getAttString (resource : Path) (attribute : string) : CfnValue :=
  VGetAtt resource attribute.

(** [path.join(dir, rel)] for a relative [rel] without dots. *)
Definition path_join (dir rel : string) : string := dir +:+ "/" +:+ rel.

Definition NODEJS_14_X : string := "nodejs14.x".

End Cdk.

Import Cdk.

(** ** enable-aws-service-access.ts *)

Module EnableAwsServiceAccess.
Section WithDirname.
Variable dirname : string.

Record EnableAwsServiceAccessProps := {
  servicePrincipal : string;
}.

Record EnableAwsServiceAccess := {
  id : CfnValue;
}.

Definition className : string := "EnableAwsServiceAccess".
Definition uniqueid : string := "Custom::OrganizationsEnableAwsServiceAccess".

Definition providerProps : CustomResourceProviderProps :=
  {| codeDirectory := path_join dirname "enable-aws-service-access/dist";
     runtime := NODEJS_14_X;
     policyStatements :=
       [ {| Effect := "Allow";
            Action := [ "organizations:DisableAWSServiceAccess";
                        "organizations:EnableAwsServiceAccess" ];
            Resource := "*" |} ] |}.

Definition constructor (scope : Path) (id_ : string)
    (props : EnableAwsServiceAccessProps) : M EnableAwsServiceAccess :=
  this ← newConstruct scope id_ (Instance className);
  customResource ← getOrCreateProvider this uniqueid providerProps;
  token ← get_serviceToken customResource;
  resource ← newCustomResource this "Resource"
    {| resourceType := "Custom::EnableAwsServiceAccess";
       serviceToken := token;
       properties :=
         [ ("partition", Aws_PARTITION);
           ("servicePrincipal", VStr (servicePrincipal props)) ] |};
  mret {| id := ref resource |}.

End WithDirname.
End EnableAwsServiceAccess.

(** ** organizational-unit.ts *)

Module OrganizationalUnit.
Section WithDirname.
Variable dirname : string.

Record OrganizationalUnitProps := {
  name : string;
  path : string;
  kmsKey : Key;
  logRetentionInDays : Z;
}.

Record OrganizationalUnit := {
  organizationalUnitName : string;
  organizationalUnitPath : string;
  organizationalUnitId : CfnValue;
  organizationalUnitArn : CfnValue;
}.

Definition className : string := "OrganizationalUnit".
Definition uniqueid : string := "Custom::OrganizationsCreateOrganizationalUnit".

Definition providerProps : CustomResourceProviderProps :=
  {| codeDirectory := path_join dirname "create-organizational-unit/dist";
     runtime := NODEJS_14_X;
     policyStatements :=
       [ {| Effect := "Allow";
            Action := [ "organizations:CreateOrganizationalUnit";
                        "organizations:ListOrganizationalUnitsForParent";
                        "organizations:ListRoots";
                        "organizations:UpdateOrganizationalUnit" ];
            Resource := "*" |} ] |}.

Definition constructor (scope : Path) (id : string)
    (props : OrganizationalUnitProps) : M OrganizationalUnit :=
  this ← newConstruct scope id (Instance className);
  let organizationalUnitName_ := name props in
  let organizationalUnitPath_ := path props in
  createOrganizationalUnitFunction ←
    getOrCreateProvider this uniqueid providerProps;
  token ← get_serviceToken createOrganizationalUnitFunction;
  resource ← newCustomResource this "Resource"
    {| resourceType := "Custom::CreateOrganizationalUnit";
       serviceToken := token;
       properties :=
         [ ("partition", Aws_PARTITION);
           ("name", VStr (name props));
           ("path", VStr (path props)) ] |};
  configured ← getIsLogGroupConfigured;
  _ ← (if negb configured then
         handler ← findChild createOrganizationalUnitFunction "Handler";
         logGroup ← newLogGroup this "LogGroup"
           {| logGroupName := VConcat (VStr "/aws/lambda/") (ref handler);
              retention := logRetentionInDays props;
              encryptionKey := kmsKey props;
              removalPolicy := DESTROY |};
         _ ← addDependency resource logGroup;
         setIsLogGroupConfigured true
       else mret ());
  mret {| organizationalUnitName := organizationalUnitName_;
          organizationalUnitPath := organizationalUnitPath_;
          organizationalUnitId := ref resource;
          organizationalUnitArn := getAttString resource "arn" |}.

End WithDirname.
End OrganizationalUnit.

(** ** A synthesis pass

    One run of the application instantiates stacks, plain scopes and the two
    constructs above, in some order, on the tree that starts with the
    application root alone. *)

Module Synth.
Section WithDirname.
Variable dirname : string.

Inductive Cmd :=
  | NewStack (scope : Path) (id : string)
  | NewScope (scope : Path) (id : string)
  | NewEnableAwsServiceAccess (scope : Path) (id : string)
      (props : EnableAwsServiceAccess.EnableAwsServiceAccessProps)
  | NewOrganizationalUnit (scope : Path) (id : string)
      (props : OrganizationalUnit.OrganizationalUnitProps).

Definition exec (c : Cmd) : M unit :=
  match c with
  | NewStack scope id => _ ← newConstruct scope id Stack; mret ()
  | NewScope scope id => _ ← newConstruct scope id Plain; mret ()
  | NewEnableAwsServiceAccess scope id props =>
      _ ← EnableAwsServiceAccess.constructor dirname scope id props; mret ()
  | NewOrganizationalUnit scope id props =>
      _ ← OrganizationalUnit.constructor dirname scope id props; mret ()
  end.

Fixpoint run (cs : list Cmd) : M unit :=
  match cs with
  | [] => mret ()
  | c :: cs' => _ ← exec c; run cs'
  end.

(** The organizational units of a pass, in construction order. *)
Definition organizationalUnits (cs : list Cmd)
    : list (Path * OrganizationalUnit.OrganizationalUnitProps) :=
  omap (λ c, match c with
             | NewOrganizationalUnit scope id props => Some (id :: scope, props)
             | _ => None
             end) cs.

(** The log groups of a tree. *)
Definition isLogGroup (n : Node) : bool :=
  match n with LogGroup _ => true | _ => false end.

Definition logGroups (t : gmap Path Node) : gmap Path Node :=
  filter (λ kv, isLogGroup kv.2 = true) t.

End WithDirname.
End Synth.

(** ** pipeline.ts *)

Module Pipeline.

Record Role := {
  roleId : string;
  assumedBy : string;
  managedPolicies : list string;
}.

Record Artifact := { artifactName : string }.

Record Repository := { repositoryName : string }.

Inductive BuildEnvironmentVariableType :=
  PLAINTEXT | PARAMETER_STORE | SECRETS_MANAGER.

Record BuildEnvironmentVariable := {
  type : BuildEnvironmentVariableType;
  value : string;
}.

Record BuildSpec := {
  version : string;
  install_runtime_nodejs : Z;
  build_commands : list string;
  artifacts : option (list string * string);
}.

Record BuildEnvironment := {
  buildImage : string;
  privileged : bool;
  computeType : string;
  environmentVariables : list (string * BuildEnvironmentVariable);
}.

Record PipelineProject := {
  projectId : string;
  projectName : string;
  projectRole : Role;
  buildSpec : BuildSpec;
  environment : BuildEnvironment;
  cache : string;
}.

Inductive CodeCommitTrigger := NONE | POLL | EVENTS.

(** Optional properties are options: [None] is a property left out. *)
Record CodeCommitSourceActionProps := {
  cc_actionName : string;
  cc_runOrder : option Z;
  cc_repository : Repository;
  cc_branch : option string;
  cc_output : Artifact;
  cc_trigger : option CodeCommitTrigger;
}.

Record CodeBuildActionProps := {
  cb_actionName : string;
  cb_runOrder : option Z;
  cb_project : PipelineProject;
  cb_input : Artifact;
  cb_extraInputs : option (list Artifact);
  cb_outputs : option (list Artifact);
  cb_role : option Role;
  cb_environmentVariables : option (list (string * BuildEnvironmentVariable));
}.

Inductive Action :=
  | CodeCommitSourceAction (props : CodeCommitSourceActionProps)
  | CodeBuildAction (props : CodeBuildActionProps).

Definition actionName (a : Action) : string :=
  match a with
  | CodeCommitSourceAction p => cc_actionName p
  | CodeBuildAction p => cb_actionName p
  end.

Definition runOrder (a : Action) : option Z :=
  match a with
  | CodeCommitSourceAction p => cc_runOrder p
  | CodeBuildAction p => cb_runOrder p
  end.

Record StageProps := {
  stageName : string;
  actions : list Action;
}.

Record SecureS3BucketProps := {
  s3BucketName : string;
  kmsAliasName : string;
  kmsDescription : string;
}.

Record ConfigRepositoryProps := {
  cr_repositoryName : string;
  cr_repositoryBranchName : string;
  cr_description : string;
}.

Record CfnNagRule := { rule_id : string; reason : string }.

(** [codepipeline.Pipeline]: its properties and the stages added so far. *)
Record PipelineState := {
  pipelineName : string;
  artifactBucket : SecureS3BucketProps;
  role : Role;
  stages : list StageProps;
}.

(** [pipeline.addStage(props)] without a placement: the stage goes last.  A
    stage name already in the pipeline, or two actions of one name in the
    stage, is an error. *)
Definition addStage (props : StageProps) : StateErr PipelineState unit := λ p,
  if bool_decide (stageName props ∈ stageName <$> stages p) then None
  else if bool_decide (NoDup (actionName <$> actions props)) then
    Some ((), {| pipelineName := pipelineName p;
                 artifactBucket := artifactBucket p;
                 role := role p;
                 stages := stages p ++ [props] |})
  else None.

(** The values of the [AcceleratorStage] enumeration that the pipeline
    names; the enumeration is declared elsewhere in the package. *)
Record AcceleratorStageEnum := {
  LOGGING : string;
  ORGANIZATIONS : string;
  SECURITY_AUDIT : string;
  SECURITY : string;
}.

Record AcceleratorPipelineProps := {
  sourceRepositoryName : string;
  sourceBranchName : string;
}.

(** The private fields of the class. *)
Record AcceleratorPipeline := {
  pipelineRole : Role;
  toolkitRole : Role;
  toolkitProject : PipelineProject;
  buildOutput : Artifact;
  acceleratorRepoArtifact : Artifact;
  configRepoArtifact : Artifact;
}.

(** What the constructor leaves behind: the object, the pipeline it built
    and the two cfn_nag suppressions. *)
Record Constructed := {
  this : AcceleratorPipeline;
  pipeline : PipelineState;
  configRepository : ConfigRepositoryProps;
  bucketMetadata : list CfnNagRule;
  pipelinePolicyMetadata : list CfnNagRule;
}.

Definition Aws_ACCOUNT_ID : string := "${AWS::AccountId}".

Definition createToolkitStage (this : AcceleratorPipeline)
    (actionName : string) (cdkOptions : string) (runOrder : option Z)
    : Action :=
  CodeBuildAction
    {| cb_actionName := actionName;
       cb_runOrder := runOrder;
       cb_project := toolkitProject this;
       cb_input := buildOutput this;
       cb_extraInputs := Some [configRepoArtifact this];
       cb_outputs := None;
       cb_role := Some (pipelineRole this);
       cb_environmentVariables :=
         Some [ ("CDK_OPTIONS",
                 {| type := PLAINTEXT; value := cdkOptions |}) ] |}.

Section WithEnvironment.
(** [cdk.Stack.of(this)]'s account, region and partition, the enumeration
    and [ConfigRepository.getRepository], which live outside this file. *)
Variables stack_account stack_region stack_partition : string.
Variable AcceleratorStage : AcceleratorStageEnum.
Variable getRepository : ConfigRepositoryProps → Repository.

Definition constructor (props : AcceleratorPipelineProps)
    : option Constructed :=
  let bucket :=
    {| s3BucketName := "aws-accelerator-pipeline-" +:+ stack_account +:+ "-"
                       +:+ stack_region;
       kmsAliasName := "alias/accelerator/pipeline/s3";
       kmsDescription := "AWS Accelerator Pipeline Bucket CMK" |} in
  let bucketMetadata_ :=
    [ {| rule_id := "W35";
         reason := "S3 Bucket access logging is not enabled for the pipeline artifacts bucket." |} ] in
  let configRepository_ :=
    {| cr_repositoryName := "accelerator-config";
       cr_repositoryBranchName := "main";
       cr_description := "AWS Accelerator configuration repository, created and initialized with default config file by pipeline" |} in
  let pipelineRole_ :=
    {| roleId := "PipelineRole"; assumedBy := "codepipeline.amazonaws.com";
       managedPolicies := [] |} in
  let pipeline0 :=
    {| pipelineName := "AWSAccelerator-Pipeline";
       artifactBucket := bucket;
       role := pipelineRole_;
       stages := [] |} in
  let pipelinePolicyMetadata_ :=
    [ {| rule_id := "W76";
         reason := "This policy is generated by CDK which can cause a high SPCM score." |} ] in
  let acceleratorRepoArtifact_ := {| artifactName := "Source" |} in
  let configRepoArtifact_ := {| artifactName := "Config" |} in
  let body : StateErr PipelineState AcceleratorPipeline :=
    _ ← addStage
      {| stageName := "Source";
         actions :=
           [ CodeCommitSourceAction
               {| cc_actionName := "Source";
                  cc_runOrder := None;
                  cc_repository :=
                    {| repositoryName := sourceRepositoryName props |};
                  cc_branch := Some (sourceBranchName props);
                  cc_output := acceleratorRepoArtifact_;
                  cc_trigger := Some NONE |};
             CodeCommitSourceAction
               {| cc_actionName := "Configuration";
                  cc_runOrder := None;
                  cc_repository := getRepository configRepository_;
                  cc_branch := Some "main";
                  cc_output := configRepoArtifact_;
                  cc_trigger := Some NONE |} ] |};
    let buildRole :=
      {| roleId := "BuildRole"; assumedBy := "codebuild.amazonaws.com";
         managedPolicies := [] |} in
    let buildProject :=
      {| projectId := "BuildProject";
         projectName := "AWSAccelerator-BuildProject";
         projectRole := buildRole;
         buildSpec :=
           {| version := "0.2";
              install_runtime_nodejs := 14;
              build_commands :=
                [ "cd source"; "yarn install"; "yarn lerna link"; "yarn build" ];
              artifacts := Some ([ "**/*" ], "yes") |};
         environment :=
           {| buildImage := "aws/codebuild/standard:5.0";
              privileged := true;
              computeType := "BUILD_GENERAL1_MEDIUM";
              environmentVariables :=
                [ ("ACCELERATOR_NAME",
                   {| type := PLAINTEXT; value := "aws-accelerator" |}) ] |};
         cache := "LOCAL_SOURCE_CACHE" |} in
    let buildOutput_ := {| artifactName := "Build" |} in
    _ ← addStage
      {| stageName := "Build";
         actions :=
           [ CodeBuildAction
               {| cb_actionName := "Build";
                  cb_runOrder := None;
                  cb_project := buildProject;
                  cb_input := acceleratorRepoArtifact_;
                  cb_extraInputs := None;
                  cb_outputs := Some [ buildOutput_ ];
                  cb_role := Some pipelineRole_;
                  cb_environmentVariables := None |} ] |};
    let toolkitRole_ :=
      {| roleId := "ToolkitRole"; assumedBy := "codebuild.amazonaws.com";
         managedPolicies := [ "AdministratorAccess" ] |} in
    let toolkitProject_ :=
      {| projectId := "ToolkitProject";
         projectName := "AWSAccelerator-ToolkitProject";
         projectRole := toolkitRole_;
         buildSpec :=
           {| version := "0.2";
              install_runtime_nodejs := 14;
              build_commands :=
                [ "env";
                  "cd source";
                  "cd packages/@aws-accelerator/accelerator";
                  "npx ts-node --transpile-only cdk.ts --require-approval never $CDK_OPTIONS --config-dir $CODEBUILD_SRC_DIR_Config" ];
              artifacts := None |};
         environment :=
           {| buildImage := "aws/codebuild/standard:5.0";
              privileged := true;
              computeType := "BUILD_GENERAL1_MEDIUM";
              environmentVariables :=
                [ ("CDK_NEW_BOOTSTRAP",
                   {| type := PLAINTEXT; value := "1" |});
                  ("ACCOUNT_ID",
                   {| type := PLAINTEXT; value := Aws_ACCOUNT_ID |});
                  ("ACCELERATOR_NAME",
                   {| type := PLAINTEXT; value := "aws-accelerator" |}) ] |};
         cache := "LOCAL_SOURCE_CACHE" |} in
    (* the six fields are assigned by now and not again: the object the
       calls of createToolkitStage read *)
    let this_ :=
      {| pipelineRole := pipelineRole_;
         toolkitRole := toolkitRole_;
         toolkitProject := toolkitProject_;
         buildOutput := buildOutput_;
         acceleratorRepoArtifact := acceleratorRepoArtifact_;
         configRepoArtifact := configRepoArtifact_ |} in
    _ ← addStage
      {| stageName := "Bootstrap";
         actions :=
           [ createToolkitStage this_ "Bootstrap"
               ("bootstrap --partition " +:+ stack_partition) None ] |};
    _ ← addStage
      {| stageName := "Logging";
         actions :=
           [ createToolkitStage this_ "Logging"
               ("deploy --stage " +:+ LOGGING AcceleratorStage) None ] |};
    _ ← addStage
      {| stageName := "Organization";
         actions :=
           [ createToolkitStage this_ "Organizations"
               ("deploy --stage " +:+ ORGANIZATIONS AcceleratorStage) None ] |};
    _ ← addStage
      {| stageName := "SecurityAudit";
         actions :=
           [ createToolkitStage this_ "SecurityAudit"
               ("deploy --stage " +:+ SECURITY_AUDIT AcceleratorStage) None ] |};
    _ ← addStage
      {| stageName := "Deploy";
         actions :=
           [ createToolkitStage this_ "Security"
               ("deploy --stage " +:+ SECURITY AcceleratorStage) (Some 1%Z) ] |};
    mret this_ in
  match body pipeline0 with
  | Some (this_, pipeline_) =>
      Some {| this := this_;
              pipeline := pipeline_;
              configRepository := configRepository_;
              bucketMetadata := bucketMetadata_;
              pipelinePolicyMetadata := pipelinePolicyMetadata_ |}
  | None => None
  end.


End WithEnvironment.
End Pipeline.

(** ** Vocabulary of the statements and proofs *)

(** The world with its tree replaced. *)
Definition setTree (w : World) (t : gmap Path Node) : World :=
  {| isLogGroupConfigured := isLogGroupConfigured w; tree := t |}.

(** Every construct of the tree has its scope in the tree. *)
Definition closed (t : gmap Path Node) : Prop :=
  ∀ x p, is_Some (t !! (x :: p)) → is_Some (t !! p).

(** The tree after [getOrCreateProvider] has looked at the slot [provider]:
    unchanged when the slot is taken, with the provider, its role and its
    handler otherwise. *)
Definition withProvider (t : gmap Path Node) (provider : Path)
    (pp : CustomResourceProviderProps) : gmap Path Node :=
  match t !! provider with
  | Some _ => t
  | None =>
      <["Handler" :: provider := ProviderHandler (runtime pp) (codeDirectory pp)]>
        (<["Role" :: provider := ProviderRole (policyStatements pp)]>
           (<[provider := CustomResourceProvider pp]> t))
  end.

(** The tree after the steps the two constructors share: the instance
    [this], the provider of its stack, and the custom resource [Resource]
    with the provider's service token and the dependencies [deps]. *)
Definition attached (t : gmap Path Node) (cls uid : string)
    (pp : CustomResourceProviderProps)
    (mk : option CfnValue → CustomResourceProps) (this stack : Path)
    (deps : list Path) : gmap Path Node :=
  let t2 := withProvider (<[this := Instance cls]> t) (providerId uid :: stack) pp in
  <["Resource" :: this :=
      CustomResource (mk (tokenOf t2 (providerId uid :: stack))) deps]> t2.

(** The properties of the two custom resources and of the log group, as
    the constructors write them. *)
Definition enableResourceProps
    (props : EnableAwsServiceAccess.EnableAwsServiceAccessProps)
    (token : option CfnValue) : CustomResourceProps :=
  {| resourceType := "Custom::EnableAwsServiceAccess";
     serviceToken := token;
     properties :=
       [ ("partition", Aws_PARTITION);
         ("servicePrincipal",
          VStr (EnableAwsServiceAccess.servicePrincipal props)) ] |}.

Definition orgUnitResourceProps
    (props : OrganizationalUnit.OrganizationalUnitProps)
    (token : option CfnValue) : CustomResourceProps :=
  {| resourceType := "Custom::CreateOrganizationalUnit";
     serviceToken := token;
     properties :=
       [ ("partition", Aws_PARTITION);
         ("name", VStr (OrganizationalUnit.name props));
         ("path", VStr (OrganizationalUnit.path props)) ] |}.

Definition orgUnitLogGroup
    (props : OrganizationalUnit.OrganizationalUnitProps) (stack : Path)
    : LogGroupProps :=
  {| logGroupName :=
       VConcat (VStr "/aws/lambda/")
         (VRef ("Handler" :: providerId OrganizationalUnit.uniqueid :: stack));
     retention := OrganizationalUnit.logRetentionInDays props;
     encryptionKey := OrganizationalUnit.kmsKey props;
     removalPolicy := DESTROY |}.

(** The two construct classes with their provider key and properties. *)
Definition classes (d : string)
    : list (string * string * CustomResourceProviderProps) :=
  [ (EnableAwsServiceAccess.className, EnableAwsServiceAccess.uniqueid,
     EnableAwsServiceAccess.providerProps d);
    (OrganizationalUnit.className, OrganizationalUnit.uniqueid,
     OrganizationalUnit.providerProps d) ].

(** Constructs that are neither instances of the two classes nor part of
    a provider or a custom resource. *)
Definition inert (n : Node) : Prop :=
  match n with
  | Stack | Plain | LogGroup _ => True
  | _ => False
  end.

(** The invariant of the tree between two instantiations: scopes exist;
    a provider sits under the id of its key with the properties of its
    class, with its role and handler; an instance has its custom resource,
    whose service token is read from the provider slot of its stack. *)
Record Inv (d : string) (t : gmap Path Node) : Prop := {
  inv_closed : closed t;
  inv_prov : ∀ q pp, t !! q = Some (CustomResourceProvider pp) →
    t !! ("Role" :: q) = Some (ProviderRole (policyStatements pp)) ∧
    t !! ("Handler" :: q)
      = Some (ProviderHandler (runtime pp) (codeDirectory pp)) ∧
    ∃ cls uid s, (cls, uid, pp) ∈ classes d ∧ q = providerId uid :: s;
  inv_inst : ∀ p cls, t !! p = Some (Instance cls) →
    ∃ uid pp s cr deps, (cls, uid, pp) ∈ classes d ∧
      stackOf t p = Some s ∧
      t !! ("Resource" :: p) = Some (CustomResource cr deps) ∧
      is_Some (t !! (providerId uid :: s)) ∧
      serviceToken cr = tokenOf t (providerId uid :: s);
}.

(** The effect of one instantiation on the invariant, the flag and the log
    groups. *)
Definition stepEffect (c : Synth.Cmd) (w w' : World) : Prop :=
  match c with
  | Synth.NewOrganizationalUnit scope id props =>
      isLogGroupConfigured w' = true ∧
      is_Some (tree w' !! (id :: scope)) ∧
      if isLogGroupConfigured w
      then Synth.logGroups (tree w') = Synth.logGroups (tree w)
      else ∃ s, stackOf (tree w') (id :: scope) = Some s ∧
             Synth.logGroups (tree w')
             = <["LogGroup" :: id :: scope := LogGroup (orgUnitLogGroup props s)]>
                 (Synth.logGroups (tree w))
  | _ =>
      isLogGroupConfigured w' = isLogGroupConfigured w ∧
      Synth.logGroups (tree w') = Synth.logGroups (tree w)
  end.

(** The flag and the log groups after the organizational units [ous] have
    been constructed, in this order. *)
Definition J (w : World)
    (ous : list (Path * OrganizationalUnit.OrganizationalUnitProps)) : Prop :=
  match ous with
  | [] => isLogGroupConfigured w = false ∧ Synth.logGroups (tree w) = ∅
  | first :: _ =>
      isLogGroupConfigured w = true ∧
      is_Some (tree w !! first.1) ∧
      ∃ s, stackOf (tree w) first.1 = Some s ∧
        Synth.logGroups (tree w)
        = {[ "LogGroup" :: first.1 := LogGroup (orgUnitLogGroup first.2 s) ]}
  end.

(** What a construction leaves in the tree [t'], started on the tree [t]:
    the instance [this] lies in [stack], its custom resource takes the
    service token of the stack's child [provider], and that child, when it
    is a provider, carries the policy of [pp], as does its role. *)
Definition Registration (t t' : gmap Path Node) (this stack provider : Path)
    (pp : CustomResourceProviderProps) (cr : CustomResourceProps)
    (deps : list Path) : Prop :=
  stackOf t' this = Some stack ∧
  t' !! ("Resource" :: this) = Some (CustomResource cr deps) ∧
  serviceToken cr = tokenOf t' provider ∧
  is_Some (t' !! provider) ∧
  (∀ pp', t' !! provider = Some (CustomResourceProvider pp') →
     pp' = pp ∧
     t' !! ("Role" :: provider) = Some (ProviderRole (policyStatements pp))) ∧
  (t !! provider = None → provider ≠ this →
     t' !! provider = Some (CustomResourceProvider pp)).

(** The constructor once the flag is set: the log group branch is dead. *)
Definition configuredConstructor (d : string) (scope : Path) (id : string)
    (name path : string) : M OrganizationalUnit.OrganizationalUnit :=
  this ← newConstruct scope id (Instance OrganizationalUnit.className);
  provider ← getOrCreateProvider this OrganizationalUnit.uniqueid
                (OrganizationalUnit.providerProps d);
  token ← get_serviceToken provider;
  resource ← newCustomResource this "Resource"
    {| resourceType := "Custom::CreateOrganizationalUnit";
       serviceToken := token;
       properties :=
         [ ("partition", Aws_PARTITION);
           ("name", VStr name);
           ("path", VStr path) ] |};
  mret {| OrganizationalUnit.organizationalUnitName := name;
          OrganizationalUnit.organizationalUnitPath := path;
          OrganizationalUnit.organizationalUnitId := ref resource;
          OrganizationalUnit.organizationalUnitArn :=
            getAttString resource "arn" |}.

(** The policy statements of the two providers. *)
Definition enableStatement : PolicyStatement :=
  {| Effect := "Allow";
     Action := [ "organizations:DisableAWSServiceAccess";
                 "organizations:EnableAwsServiceAccess" ];
     Resource := "*" |}.

Definition orgUnitStatement : PolicyStatement :=
  {| Effect := "Allow";
     Action := [ "organizations:CreateOrganizationalUnit";
                 "organizations:ListOrganizationalUnitsForParent";
                 "organizations:ListRoots";
                 "organizations:UpdateOrganizationalUnit" ];
     Resource := "*" |}.

(** The value of [CDK_OPTIONS] among the environment variables of an
    action. *)
Definition cdkOptions (a : Pipeline.Action) : option string :=
  match a with
  | Pipeline.CodeBuildAction p =>
      vars ← Pipeline.cb_environmentVariables p;
      Pipeline.value <$> (list_to_map vars : gmap string _) !! "CDK_OPTIONS"
  | _ => None
  end.


(** A concrete pass, for instances of the claims. *)
Definition demoKey : Key := {| keyArn := "arn:aws:kms:::key/1" |}.

Definition demoUnit (n : string) (days : Z)
    : OrganizationalUnit.OrganizationalUnitProps :=
  {| OrganizationalUnit.name := n;
     OrganizationalUnit.path := "/";
     OrganizationalUnit.kmsKey := demoKey;
     OrganizationalUnit.logRetentionInDays := days |}.

Definition demoAccess : EnableAwsServiceAccess.EnableAwsServiceAccessProps :=
  {| EnableAwsServiceAccess.servicePrincipal := "config.amazonaws.com" |}.

Definition demoPass : list Synth.Cmd :=
  [ Synth.NewStack [] "Organizations";
    Synth.NewEnableAwsServiceAccess ["Organizations"] "Config" demoAccess;
    Synth.NewOrganizationalUnit ["Organizations"] "Security"
      (demoUnit "Security" 365);
    Synth.NewOrganizationalUnit ["Organizations"] "Workloads"
      (demoUnit "Workloads" 0) ].

Definition demoWorld : World :=
  match Synth.run "lib" demoPass initial with
  | Some (_, w) => w
  | None => initial
  end.

(** A further construction on the tree the pass leaves. *)
Definition demoEnable
    : EnableAwsServiceAccess.EnableAwsServiceAccess * World :=
  default ({| EnableAwsServiceAccess.id := VStr "" |}, initial)
    (EnableAwsServiceAccess.constructor "lib" ["Organizations"] "Macie"
       demoAccess demoWorld).

Definition demoLater : OrganizationalUnit.OrganizationalUnit * World :=
  default ({| OrganizationalUnit.organizationalUnitName := "";
              OrganizationalUnit.organizationalUnitPath := "";
              OrganizationalUnit.organizationalUnitId := VStr "";
              OrganizationalUnit.organizationalUnitArn := VStr "" |}, initial)
    (OrganizationalUnit.constructor "lib" ["Organizations"] "Sandbox"
       (demoUnit "Sandbox" (-1)) demoWorld).

(** *** Vocabulary of the further properties *)

(** Whether an instantiation constructs an organizational unit. *)
Definition isOrganizationalUnit (c : Synth.Cmd) : bool :=
  match c with
  | Synth.NewOrganizationalUnit _ _ _ => true
  | _ => false
  end.

(** The construct ids under which the two classes keep their providers. *)
Definition providerIds : list string :=
  [ providerId EnableAwsServiceAccess.uniqueid;
    providerId OrganizationalUnit.uniqueid ].

(** The id an instantiation gives its construct. *)
Definition cmdId (c : Synth.Cmd) : string :=
  match c with
  | Synth.NewStack _ id | Synth.NewScope _ id
  | Synth.NewEnableAwsServiceAccess _ id _
  | Synth.NewOrganizationalUnit _ id _ => id
  end.

(** Every child of a stack under a provider id is a provider. *)
Definition providersOnly (t : gmap Path Node) : Prop :=
  ∀ x s n, x ∈ providerIds → t !! (x :: s) = Some n →
    ∃ pp, n = CustomResourceProvider pp.

(** Every log group of the tree is named after a handler of an
    organizational-unit provider that is in the tree. *)
Definition namesHandler (t : gmap Path Node) : Prop :=
  ∀ p lg, t !! p = Some (LogGroup lg) →
    ∃ s, logGroupName lg
         = VConcat (VStr "/aws/lambda/")
             (VRef ("Handler" :: providerId OrganizationalUnit.uniqueid :: s)) ∧
         is_Some (t !! ("Handler" :: providerId OrganizationalUnit.uniqueid :: s)).





(** Further concrete worlds: a tree with one stack only and the first unit
    constructed on it; the tree of [demoPass] with a second stack and a unit
    constructed in that stack; and a second pass of the same process on a
    new tree. *)
Definition demoNoUnit : OrganizationalUnit.OrganizationalUnit :=
  {| OrganizationalUnit.organizationalUnitName := "";
     OrganizationalUnit.organizationalUnitPath := "";
     OrganizationalUnit.organizationalUnitId := VStr "";
     OrganizationalUnit.organizationalUnitArn := VStr "" |}.

Definition demoFresh : World :=
  match Synth.run "lib" [ Synth.NewStack [] "Organizations" ] initial with
  | Some (_, w) => w
  | None => initial
  end.


Definition demoTwoStacks : World :=
  match Synth.run "lib" (demoPass ++ [ Synth.NewStack [] "Accounts" ]) initial
  with
  | Some (_, w) => w
  | None => initial
  end.

Definition demoOther : OrganizationalUnit.OrganizationalUnit * World :=
  default (demoNoUnit, initial)
    (OrganizationalUnit.constructor "lib" ["Accounts"] "Suspended"
       (demoUnit "Suspended" 30) demoTwoStacks).

Definition demoSecondPass : list Synth.Cmd :=
  [ Synth.NewStack [] "Organizations";
    Synth.NewOrganizationalUnit ["Organizations"] "Security"
      (demoUnit "Security" 365) ].

Definition demoSecond : World :=
  match Synth.run "lib" demoSecondPass
          {| isLogGroupConfigured := isLogGroupConfigured demoWorld;
             tree := tree initial |} with
  | Some (_, w) => w
  | None => initial
  end.

Ltac by_vm :=
  lazymatch goal with
  | |- _ = ?r => vm_cast_no_check (@eq_refl _ r)
  end.

(** ** Lemmas on the monad and the construct tree *)

Section Monad.
Context {S : Type}.

Lemma bind_Some {A B} (m : StateErr S A) (f : A → StateErr S B) s r :
  (m ≫= f) s = Some r ↔ ∃ a s', m s = Some (a, s') ∧ f a s' = Some r.
Proof.
  unfold mbind, StateErr_bind. destruct (m s) as [[a s']|]; split.
  - intros H. by exists a, s'.
  - by intros (? & ? & [= <- <-] & H).
  - done.
  - by intros (? & ? & ? & _).
Qed.

Lemma ret_Some {A} (a : A) (s : S) r :
  (mret a : StateErr S A) s = Some r ↔ r = (a, s).
Proof. unfold mret, StateErr_ret. split; [by intros [= <-] | by intros ->]. Qed.

Lemma bind_cong {A B} (m : StateErr S A) (f g : A → StateErr S B) s :
  (∀ a s', m s = Some (a, s') → f a s' = g a s') →
  (m ≫= f) s = (m ≫= g) s.
Proof.
  intros H. unfold mbind, StateErr_bind. destruct (m s) as [[a s']|]; auto.
Qed.

End Monad.

Lemma path_cons_ne (x : string) (p : Path) : x :: p ≠ p.
Proof. intros H. apply (f_equal length) in H. simpl in H. lia. Qed.

Lemma newConstruct_Some scope id n w p w' :
  newConstruct scope id n w = Some (p, w') ↔
  p = id :: scope ∧ is_Some (tree w !! scope) ∧ tree w !! (id :: scope) = None ∧
  w' = setTree w (<[id :: scope := n]> (tree w)).
Proof.
  unfold newConstruct. rewrite bind_Some. unfold getTree. split.
  - intros (t & w1 & [= <- <-] & H).
    destruct (tree w !! scope) eqn:Hs; [|done].
    destruct (tree w !! (id :: scope)) eqn:Hc; [done|].
    apply bind_Some in H as (? & w2 & [= <-] & H2). apply ret_Some in H2.
    by simplify_eq.
  - intros (-> & [x Hs] & Hc & ->). exists (tree w), w. split; [done|].
    by rewrite Hs, Hc.
Qed.

Lemma stackOf_Some t p s :
  stackOf t p = Some s → t !! s = Some Stack ∧ s `suffix_of` p.
Proof.
  induction p as [|x p IH]; simpl.
  - destruct (t !! []) as [[]|] eqn:E; try done. by intros [= <-].
  - destruct (t !! (x :: p)) as [n|] eqn:E.
    + destruct n; try (intros H; destruct (IH H); split; [done|by apply suffix_cons_r]).
      by intros [= <-].
    + intros H; destruct (IH H); split; [done|by apply suffix_cons_r].
Qed.

Lemma stackOf_insert_longer t q n p :
  length p < length q → stackOf (<[q := n]> t) p = stackOf t p.
Proof.
  induction p as [|x p IH]; simpl; intros Hlen.
  - rewrite lookup_insert_ne; [done|]. intros ->. simpl in Hlen. lia.
  - rewrite lookup_insert_ne; [|intros ->; simpl in Hlen; lia].
    rewrite IH; [done|lia].
Qed.

Lemma stackOf_weaken t t' p :
  closed t → t ⊆ t' → is_Some (t !! p) → stackOf t' p = stackOf t p.
Proof.
  intros Hc Hsub. induction p as [|x p IH]; simpl; intros [n Hn].
  - by rewrite Hn, (lookup_weaken _ _ _ _ Hn Hsub).
  - rewrite Hn, (lookup_weaken _ _ _ _ Hn Hsub).
    rewrite IH; [done|]. apply (Hc x). by exists n.
Qed.

Lemma tokenOf_weaken t t' q :
  t ⊆ t' → is_Some (t !! q) → tokenOf t' q = tokenOf t q.
Proof.
  intros Hsub [n Hn]. unfold tokenOf.
  by rewrite Hn, (lookup_weaken _ _ _ _ Hn Hsub).
Qed.

Lemma closed_insert t x p n :
  closed t → is_Some (t !! p) → closed (<[x :: p := n]> t).
Proof.
  intros Hc Hp y q. rewrite !lookup_insert_is_Some'.
  intros [[= <- <-]|Hq]; right; [done|by apply (Hc y)].
Qed.

Lemma closed_child_None t x p : closed t → t !! p = None → t !! (x :: p) = None.
Proof.
  intros Hc Hp. apply eq_None_not_Some. intros H%Hc.
  rewrite Hp in H. by destruct H.
Qed.

Lemma withProvider_sub t prov pp : closed t → t ⊆ withProvider t prov pp.
Proof.
  intros Hc. unfold withProvider. destruct (t !! prov) eqn:E; [done|].
  assert (t !! ("Role" :: prov) = None) by by apply closed_child_None.
  assert (t !! ("Handler" :: prov) = None) by by apply closed_child_None.
  etrans; [apply (insert_subseteq _ prov); done|].
  etrans; [apply (insert_subseteq _ ("Role" :: prov))|].
  { rewrite lookup_insert_ne; [done|]. apply not_eq_sym, path_cons_ne. }
  apply insert_subseteq. rewrite !lookup_insert_ne; try done.
  apply not_eq_sym, path_cons_ne.
Qed.

Lemma withProvider_closed t s x pp :
  closed t → is_Some (t !! s) → closed (withProvider t (x :: s) pp).
Proof.
  intros Hc Hs. unfold withProvider. destruct (t !! (x :: s)) eqn:E; [done|].
  apply closed_insert; [apply closed_insert; [by apply closed_insert|]|].
  - rewrite lookup_insert_eq. by eexists.
  - rewrite lookup_insert_ne, lookup_insert_eq; [by eexists|].
    apply path_cons_ne.
Qed.

Lemma getOrCreateProvider_Some scope uid pp w prov w' :
  getOrCreateProvider scope uid pp w = Some (prov, w') ↔
  ∃ stack, stackOf (tree w) scope = Some stack ∧
    prov = providerId uid :: stack ∧
    (tree w !! prov = None →
       tree w !! ("Role" :: prov) = None ∧ tree w !! ("Handler" :: prov) = None) ∧
    w' = setTree w (withProvider (tree w) prov pp).
Proof.
  unfold getOrCreateProvider, Stack_of, tryFindChild, getTree.
  rewrite bind_Some. split.
  - intros (stack & w1 & H1 & H2).
    apply bind_Some in H1 as (? & ? & [= <- <-] & H1).
    destruct (stackOf (tree w) scope) as [s|] eqn:Hs; [|done].
    apply ret_Some in H1 as [= -> ->].
    apply bind_Some in H2 as (ex & w2 & H2 & H3).
    apply bind_Some in H2 as (? & ? & [= <- <-] & H2).
    apply ret_Some in H2 as [= -> ->].
    exists s. split; [done|].
    destruct (tree w !! (providerId uid :: s)) eqn:Hp.
    + apply ret_Some in H3 as [= -> ->]. unfold withProvider. rewrite Hp.
      by destruct w.
    + unfold newCustomResourceProvider in H3.
      apply bind_Some in H3 as (this & w3 & H3 & H4).
      apply newConstruct_Some in H3 as (-> & _ & _ & ->).
      apply bind_Some in H4 as (? & w4 & H4 & H5).
      apply newConstruct_Some in H4 as (-> & _ & Hr & ->).
      apply bind_Some in H5 as (? & w5 & H5 & H6).
      apply newConstruct_Some in H5 as (-> & _ & Hh & ->).
      apply ret_Some in H6 as [= -> ->]. simpl in *.
      rewrite lookup_insert_ne in Hr by apply not_eq_sym, path_cons_ne.
      rewrite !lookup_insert_ne in Hh by (try apply not_eq_sym, path_cons_ne; done).
      unfold withProvider. rewrite Hp. done.
  - intros (stack & Hs & -> & Hfree & ->).
    exists stack, w. split.
    { apply bind_Some. exists (tree w), w. split; [done|]. by rewrite Hs. }
    apply bind_Some. eexists _, w. split.
    { apply bind_Some. exists (tree w), w. split; [done|]. by apply ret_Some. }
    unfold withProvider.
    destruct (tree w !! (providerId uid :: stack)) eqn:Hp; [by destruct w|].
    destruct (Hfree eq_refl) as [Hr Hh].
    assert (is_Some (tree w !! stack)) as Hst.
    { apply stackOf_Some in Hs as [-> _]. by eexists. }
    unfold newCustomResourceProvider. apply bind_Some. eexists _, _. split.
    { apply newConstruct_Some. by repeat split. }
    apply bind_Some. eexists _, _. split.
    { apply newConstruct_Some. repeat split; simpl.
      - rewrite lookup_insert_eq. by eexists.
      - rewrite lookup_insert_ne; [done|]. apply not_eq_sym, path_cons_ne. }
    apply bind_Some. eexists _, _. split.
    { apply newConstruct_Some. repeat split; simpl.
      - rewrite lookup_insert_ne, lookup_insert_eq; [by eexists|]. apply path_cons_ne.
      - rewrite !lookup_insert_ne; try done. apply not_eq_sym, path_cons_ne. }
    done.
Qed.

Lemma attach_inv {B} cls uid pp mk (k : Path → Path → Path → M B) scope id w r :
  (this ← newConstruct scope id (Instance cls);
   provider ← getOrCreateProvider this uid pp;
   token ← get_serviceToken provider;
   resource ← newCustomResource this "Resource" (mk token);
   k this provider resource) w = Some r →
  ∃ stack,
    is_Some (tree w !! scope) ∧ tree w !! (id :: scope) = None ∧
    stackOf (tree w) scope = Some stack ∧
    withProvider (<[id :: scope := Instance cls]> (tree w))
      (providerId uid :: stack) pp !! ("Resource" :: id :: scope) = None ∧
    k (id :: scope) (providerId uid :: stack) ("Resource" :: id :: scope)
      (setTree w (attached (tree w) cls uid pp mk (id :: scope) stack [])) = Some r.
Proof.
  intros H.
  apply bind_Some in H as (this & w1 & H1 & H).
  apply newConstruct_Some in H1 as (-> & Hscope & Hthis & ->).
  apply bind_Some in H as (prov & w2 & H2 & H).
  apply getOrCreateProvider_Some in H2 as (stack & Hstack & -> & _ & ->).
  apply bind_Some in H as (token & w3 & H3 & H).
  unfold get_serviceToken, getTree in H3.
  apply bind_Some in H3 as (? & ? & [= <- <-] & H3).
  apply ret_Some in H3 as [= -> ->].
  apply bind_Some in H as (res & w4 & H4 & H).
  apply newConstruct_Some in H4 as (-> & _ & Hres & ->).
  simpl in *. rewrite lookup_insert_eq in Hstack.
  rewrite stackOf_insert_longer in Hstack by (simpl; lia).
  exists stack. split_and!; try done.
Qed.

Section Constructors.
Variable dirname : string.

Lemma enable_inv scope id props w e w' :
  EnableAwsServiceAccess.constructor dirname scope id props w = Some (e, w') →
  ∃ stack,
    is_Some (tree w !! scope) ∧ tree w !! (id :: scope) = None ∧
    stackOf (tree w) scope = Some stack ∧
    withProvider (<[id :: scope := Instance EnableAwsServiceAccess.className]> (tree w))
      (providerId EnableAwsServiceAccess.uniqueid :: stack)
      (EnableAwsServiceAccess.providerProps dirname)
      !! ("Resource" :: id :: scope) = None ∧
    w' = setTree w
           (attached (tree w) EnableAwsServiceAccess.className
              EnableAwsServiceAccess.uniqueid
              (EnableAwsServiceAccess.providerProps dirname)
              (enableResourceProps props) (id :: scope) stack []) ∧
    e = {| EnableAwsServiceAccess.id := VRef ("Resource" :: id :: scope) |}.
Proof.
  intros H. unfold EnableAwsServiceAccess.constructor in H.
  apply (attach_inv _ _ _ (enableResourceProps props)
           (λ _ _ resource,
              mret {| EnableAwsServiceAccess.id := ref resource |})) in H
    as (stack & ? & ? & ? & ? & H).
  apply ret_Some in H as [= -> ->]. by exists stack.
Qed.

Lemma orgUnit_inv scope id props w ou w' :
  OrganizationalUnit.constructor dirname scope id props w = Some (ou, w') →
  ∃ stack,
    let this := id :: scope in
    let prov := providerId OrganizationalUnit.uniqueid :: stack in
    let t2 := withProvider (<[this := Instance OrganizationalUnit.className]> (tree w))
                prov (OrganizationalUnit.providerProps dirname) in
    let att := attached (tree w) OrganizationalUnit.className
                 OrganizationalUnit.uniqueid
                 (OrganizationalUnit.providerProps dirname)
                 (orgUnitResourceProps props) this stack in
    is_Some (tree w !! scope) ∧ tree w !! this = None ∧
    stackOf (tree w) scope = Some stack ∧
    t2 !! ("Resource" :: this) = None ∧
    (if isLogGroupConfigured w then w' = setTree w (att [])
     else
       (0 < OrganizationalUnit.logRetentionInDays props)%Z ∧
       is_Some (att [] !! ("Handler" :: prov)) ∧
       att [] !! ("LogGroup" :: this) = None ∧
       w' = {| isLogGroupConfigured := true;
               tree := <["LogGroup" :: this := LogGroup (orgUnitLogGroup props stack)]>
                         (att ["LogGroup" :: this]) |}) ∧
    ou = {| OrganizationalUnit.organizationalUnitName := OrganizationalUnit.name props;
            OrganizationalUnit.organizationalUnitPath := OrganizationalUnit.path props;
            OrganizationalUnit.organizationalUnitId := VRef ("Resource" :: this);
            OrganizationalUnit.organizationalUnitArn :=
              VGetAtt ("Resource" :: this) "arn" |}.
Proof.
  intros H. unfold OrganizationalUnit.constructor in H.
  apply (attach_inv _ _ _ (orgUnitResourceProps props)
    (λ this createOrganizationalUnitFunction resource,
       configured ← getIsLogGroupConfigured;
       _ ← (if negb configured then
              handler ← findChild createOrganizationalUnitFunction "Handler";
              logGroup ← newLogGroup this "LogGroup"
                {| logGroupName := VConcat (VStr "/aws/lambda/") (ref handler);
                   retention := OrganizationalUnit.logRetentionInDays props;
                   encryptionKey := OrganizationalUnit.kmsKey props;
                   removalPolicy := DESTROY |};
              _ ← addDependency resource logGroup;
              setIsLogGroupConfigured true
            else mret ());
       mret {| OrganizationalUnit.organizationalUnitName := OrganizationalUnit.name props;
               OrganizationalUnit.organizationalUnitPath := OrganizationalUnit.path props;
               OrganizationalUnit.organizationalUnitId := ref resource;
               OrganizationalUnit.organizationalUnitArn :=
                 getAttString resource "arn" |})) in H
    as (stack & Hscope & Hthis & Hstack & Hres & H).
  apply bind_Some in H as (c & w1 & [= <- <-] & H).
  apply bind_Some in H as ([] & w2 & H & Hret).
  apply ret_Some in Hret as [= -> ->].
  exists stack. simpl. split_and!; try done. simpl in H.
  destruct (isLogGroupConfigured w); simpl in H.
  - by apply ret_Some in H as [= ->].
  - apply bind_Some in H as (handler & w3 & H1 & H).
    unfold findChild, tryFindChild, getTree in H1.
    apply bind_Some in H1 as (c & w4 & H1 & H2).
    apply bind_Some in H1 as (? & ? & [= <- <-] & H1). simpl in H1.
    apply ret_Some in H1 as [= -> ->].
    match type of H2 with
    | context [ ?t !! ?k ] => destruct (t !! k) as [hn|] eqn:Hh; [|done]
    end.
    apply ret_Some in H2 as [= -> ->].
    apply bind_Some in H as (lg & w5 & H1 & H).
    unfold newLogGroup in H1. simpl in H1.
    destruct (Z.leb_spec (OrganizationalUnit.logRetentionInDays props) 0);
      [done|].
    apply newConstruct_Some in H1 as (-> & _ & Hlg & ->). simpl in *.
    apply bind_Some in H as ([] & w6 & [= <-] & [= <-]). simpl.
    split_and!; try done.
    f_equal. apply map_eq. intros p.
    rewrite lookup_alter. unfold attached.
    destruct (decide (p = "Resource" :: id :: scope)) as [->|Hne].
    + rewrite decide_True by done.
      rewrite !(lookup_insert_ne _ ("LogGroup" :: id :: scope)) by done.
      by rewrite !lookup_insert_eq.
    + rewrite decide_False by done.
      destruct (decide (p = "LogGroup" :: id :: scope)) as [->|Hne2].
      * by rewrite !lookup_insert_eq.
      * by rewrite !(lookup_insert_ne _ ("LogGroup" :: id :: scope)),
                   !(lookup_insert_ne _ ("Resource" :: id :: scope)).
Qed.

End Constructors.

(** *** The invariant of the construct tree *)

Lemma withProvider_lookup t prov pp p n :
  withProvider t prov pp !! p = Some n →
  t !! p = Some n ∨
  (t !! prov = None ∧
   ((p = prov ∧ n = CustomResourceProvider pp) ∨
    (p = "Role" :: prov ∧ n = ProviderRole (policyStatements pp)) ∨
    (p = "Handler" :: prov ∧ n = ProviderHandler (runtime pp) (codeDirectory pp)))).
Proof.
  unfold withProvider. destruct (t !! prov) eqn:E; [by left|].
  rewrite !lookup_insert_Some. naive_solver.
Qed.

Lemma withProvider_slot t prov pp : is_Some (withProvider t prov pp !! prov).
Proof.
  unfold withProvider. destruct (t !! prov) eqn:E; [by rewrite E|].
  rewrite !lookup_insert_ne by apply path_cons_ne.
  rewrite lookup_insert_eq. by eexists.
Qed.

Lemma attached_lookup t cls uid pp mk this stack deps p n :
  attached t cls uid pp mk this stack deps !! p = Some n →
  t !! p = Some n ∨
  (p = this ∧ n = Instance cls) ∨
  (p = "Resource" :: this ∧ ∃ tok, n = CustomResource (mk tok) deps) ∨
  (<[this := Instance cls]> t !! (providerId uid :: stack) = None ∧
   ((p = providerId uid :: stack ∧ n = CustomResourceProvider pp) ∨
    (p = "Role" :: providerId uid :: stack
     ∧ n = ProviderRole (policyStatements pp)) ∨
    (p = "Handler" :: providerId uid :: stack
     ∧ n = ProviderHandler (runtime pp) (codeDirectory pp)))).
Proof.
  unfold attached. rewrite lookup_insert_Some. intros [[<- <-]|[_ H]].
  { right; right; left. eauto. }
  apply withProvider_lookup in H as [H|H]; [|naive_solver].
  apply lookup_insert_Some in H. naive_solver.
Qed.

Lemma withProvider_new t prov pp :
  t !! prov = None →
  withProvider t prov pp !! prov = Some (CustomResourceProvider pp) ∧
  withProvider t prov pp !! ("Role" :: prov)
    = Some (ProviderRole (policyStatements pp)) ∧
  withProvider t prov pp !! ("Handler" :: prov)
    = Some (ProviderHandler (runtime pp) (codeDirectory pp)).
Proof.
  intros E. unfold withProvider. rewrite E. split_and!.
  - rewrite !lookup_insert_ne by apply path_cons_ne. apply lookup_insert_eq.
  - rewrite lookup_insert_ne by done. apply lookup_insert_eq.
  - apply lookup_insert_eq.
Qed.

Section Attached.
Variables (d : string) (t : gmap Path Node).
Variables (cls uid : string) (pp : CustomResourceProviderProps).
Variable mk : option CfnValue → CustomResourceProps.
Variables (scope : Path) (id : string) (stack : Path) (deps : list Path).
Hypothesis Ht : Inv d t.
Hypothesis Hcls : (cls, uid, pp) ∈ classes d.
Hypothesis Hmk : ∀ tok, serviceToken (mk tok) = tok.
Hypothesis Hscope : is_Some (t !! scope).
Hypothesis Hthis : t !! (id :: scope) = None.
Hypothesis Hstack : stackOf t scope = Some stack.
Hypothesis Hres :
  withProvider (<[id :: scope := Instance cls]> t) (providerId uid :: stack) pp
    !! ("Resource" :: id :: scope) = None.

Local Abbreviation t1 := (<[id :: scope := Instance cls]> t).
Local Abbreviation t2 := (withProvider t1 (providerId uid :: stack) pp).
Local Abbreviation t3 := (attached t cls uid pp mk (id :: scope) stack deps).

Lemma attached_t1_closed : closed t1.
Proof. apply closed_insert; [apply Ht|done]. Qed.

Lemma attached_t2_closed : closed t2.
Proof.
  apply withProvider_closed; [apply attached_t1_closed|].
  apply stackOf_Some in Hstack as [Hs _].
  rewrite lookup_insert_is_Some'. right. by eexists.
Qed.

Lemma attached_sub2 : t2 ⊆ t3.
Proof. by apply insert_subseteq. Qed.

Lemma attached_sub1 : t1 ⊆ t3.
Proof.
  etrans; [|apply attached_sub2].
  apply withProvider_sub, attached_t1_closed.
Qed.

Lemma attached_sub : t ⊆ t3.
Proof. etrans; [|apply attached_sub1]. by apply insert_subseteq. Qed.

Lemma attached_closed : closed t3.
Proof.
  apply closed_insert; [apply attached_t2_closed|].
  assert (t1 !! (id :: scope) = Some (Instance cls)) as H
    by apply lookup_insert_eq.
  eapply lookup_weaken in H; [by eexists|].
  apply withProvider_sub, attached_t1_closed.
Qed.

Lemma attached_this : t3 !! (id :: scope) = Some (Instance cls).
Proof.
  eapply lookup_weaken; [|apply attached_sub1]. apply lookup_insert_eq.
Qed.

Lemma attached_resource :
  t3 !! ("Resource" :: id :: scope)
  = Some (CustomResource (mk (tokenOf t3 (providerId uid :: stack))) deps).
Proof.
  unfold attached. rewrite lookup_insert_eq. do 3 f_equal.
  symmetry. apply tokenOf_weaken; [apply attached_sub2|].
  apply withProvider_slot.
Qed.

Lemma attached_slot : is_Some (t3 !! (providerId uid :: stack)).
Proof.
  destruct (withProvider_slot t1 (providerId uid :: stack) pp) as [n Hn].
  exists n. eapply lookup_weaken; [done|apply attached_sub2].
Qed.

Lemma attached_stackOf : stackOf t3 (id :: scope) = Some stack.
Proof.
  simpl. rewrite attached_this.
  rewrite (stackOf_weaken t t3); [done|apply Ht|apply attached_sub|done].
Qed.

Lemma attached_Inv : Inv d t3.
Proof.
  assert (∀ q' n, t !! q' = Some n → t3 !! q' = Some n) as Hw.
  { intros q' n Hn. eapply lookup_weaken; [done|apply attached_sub]. }
  split.
  - apply attached_closed.
  - intros q pp0 Hq.
    apply attached_lookup in Hq
      as [Hq|[[_ ?]|[(_ & ? & ?)|[Hfree [[-> [= ->]]|[[_ ?]|[_ ?]]]]]]];
      try done.
    { destruct (inv_prov _ _ Ht _ _ Hq) as (Hr & Hh & Hc). eauto. }
    destruct (withProvider_new _ _ pp Hfree) as (_ & Hr & Hh).
    split_and!.
    + eapply lookup_weaken; [exact Hr|apply attached_sub2].
    + eapply lookup_weaken; [exact Hh|apply attached_sub2].
    + eauto.
  - intros p c Hp.
    apply attached_lookup in Hp
      as [Hp|[[-> [= ->]]|[(_ & ? & ?)|[_ [[_ ?]|[[_ ?]|[_ ?]]]]]]];
      try done.
    + destruct (inv_inst _ _ Ht _ _ Hp)
        as (uid0 & pp0 & s & cr & dp & Hc & Hs & Hr & Hslot & Htok).
      exists uid0, pp0, s, cr, dp. split_and!; try done.
      * rewrite (stackOf_weaken t t3); [done|apply Ht|apply attached_sub|].
        by eexists.
      * by apply Hw.
      * destruct Hslot as [n Hn]. exists n. by apply Hw.
      * rewrite (tokenOf_weaken t t3); [done|apply attached_sub|done].
    + exists uid, pp, stack,
        (mk (tokenOf t3 (providerId uid :: stack))), deps.
      split_and!.
      * done.
      * apply attached_stackOf.
      * apply attached_resource.
      * apply attached_slot.
      * apply Hmk.
Qed.

End Attached.

Lemma Inv_initial d : Inv d (tree initial).
Proof.
  split; simpl.
  - intros x p [n Hn]. by apply lookup_singleton_Some in Hn as [? _].
  - intros q pp Hq. by apply lookup_singleton_Some in Hq as [_ ?].
  - intros p cls Hp. by apply lookup_singleton_Some in Hp as [_ ?].
Qed.

Lemma Inv_insert_inert d t x p n :
  Inv d t → inert n → is_Some (t !! p) → t !! (x :: p) = None →
  Inv d (<[x :: p := n]> t).
Proof.
  intros Ht Hn Hp Hfresh.
  assert (t ⊆ <[x :: p := n]> t) as Hsub by by apply insert_subseteq.
  split.
  - apply closed_insert; [apply Ht|done].
  - intros q pp Hq. apply lookup_insert_Some in Hq as [[_ ->]|[_ Hq]]; [done|].
    destruct (inv_prov _ _ Ht _ _ Hq) as (Hr & Hh & Hc).
    split_and!; [by eapply lookup_weaken..|done].
  - intros q cls Hq. apply lookup_insert_Some in Hq as [[_ ->]|[_ Hq]]; [done|].
    destruct (inv_inst _ _ Ht _ _ Hq)
      as (uid & pp & s & cr & dp & Hc & Hs & Hr & [m Hslot] & Htok).
    exists uid, pp, s, cr, dp. split_and!; try done.
    + rewrite (stackOf_weaken t); [done|apply Ht|done|by eexists].
    + by eapply lookup_weaken.
    + exists m. by eapply lookup_weaken.
    + rewrite (tokenOf_weaken t); [done|done|by eexists].
Qed.

Lemma logGroups_lookup t p n :
  Synth.logGroups t !! p = Some n ↔ t !! p = Some n ∧ Synth.isLogGroup n = true.
Proof. unfold Synth.logGroups. by rewrite map_lookup_filter_Some. Qed.

Lemma logGroups_ext t t' :
  t ⊆ t' →
  (∀ p n, t' !! p = Some n → Synth.isLogGroup n = true → t !! p = Some n) →
  Synth.logGroups t' = Synth.logGroups t.
Proof.
  intros Hsub Hnew. apply map_eq. intros p. apply option_eq. intros n.
  rewrite !logGroups_lookup. split; intros [H1 H2]; split; try done.
  - by apply Hnew.
  - by eapply lookup_weaken.
Qed.

Lemma logGroups_insert t p lg :
  t !! p = None →
  Synth.logGroups (<[p := LogGroup lg]> t)
  = <[p := LogGroup lg]> (Synth.logGroups t).
Proof.
  intros Hp. apply map_eq. intros q. apply option_eq. intros n.
  rewrite logGroups_lookup, !lookup_insert_Some, logGroups_lookup.
  split.
  - intros [[[-> <-]|[? ?]] ?]; [by left|by right].
  - intros [[-> <-]|[? [? ?]]]; split; auto.
Qed.

Lemma enable_mk_token props tok :
  serviceToken (enableResourceProps props tok) = tok.
Proof. done. Qed.

Lemma orgUnit_mk_token props tok :
  serviceToken (orgUnitResourceProps props tok) = tok.
Proof. done. Qed.

Lemma classes_enable d :
  (EnableAwsServiceAccess.className, EnableAwsServiceAccess.uniqueid,
   EnableAwsServiceAccess.providerProps d) ∈ classes d.
Proof. unfold classes. set_solver. Qed.

Lemma classes_orgUnit d :
  (OrganizationalUnit.className, OrganizationalUnit.uniqueid,
   OrganizationalUnit.providerProps d) ∈ classes d.
Proof. unfold classes. set_solver. Qed.

Lemma attached_logGroups d t cls uid pp mk scope id stack deps :
  Inv d t → is_Some (t !! scope) → t !! (id :: scope) = None →
  withProvider (<[id :: scope := Instance cls]> t) (providerId uid :: stack) pp
    !! ("Resource" :: id :: scope) = None →
  Synth.logGroups (attached t cls uid pp mk (id :: scope) stack deps)
  = Synth.logGroups t.
Proof.
  intros Ht Hscope Hthis Hres. apply logGroups_ext.
  - by apply attached_sub with (d := d).
  - intros p n Hp Hn. apply attached_lookup in Hp. naive_solver.
Qed.

Lemma exec_step d c w w' :
  Inv d (tree w) → Synth.exec d c w = Some ((), w') →
  Inv d (tree w') ∧ tree w ⊆ tree w' ∧ stepEffect c w w'.
Proof.
  intros Hw H. destruct c as [scope id|scope id|scope id props|scope id props];
    simpl in H; apply bind_Some in H as (a & w1 & H & Hret);
    apply ret_Some in Hret as [= <-].
  - apply newConstruct_Some in H as (-> & Hs & Hf & ->). simpl. split_and!.
    + by apply Inv_insert_inert.
    + by apply insert_subseteq.
    + done.
    + apply logGroups_ext; [by apply insert_subseteq|].
      intros p n Hp Hn. apply lookup_insert_Some in Hp as [[_ <-]|[_ ?]]; done.
  - apply newConstruct_Some in H as (-> & Hs & Hf & ->). simpl. split_and!.
    + by apply Inv_insert_inert.
    + by apply insert_subseteq.
    + done.
    + apply logGroups_ext; [by apply insert_subseteq|].
      intros p n Hp Hn. apply lookup_insert_Some in Hp as [[_ <-]|[_ ?]]; done.
  - apply enable_inv in H as (stack & Hs & Hf & Hst & Hres & -> & ->).
    simpl. split_and!.
    + apply attached_Inv; auto using classes_enable.
    + by apply attached_sub with (d := d).
    + done.
    + by apply attached_logGroups with (d := d).
  - apply orgUnit_inv in H as (stack & Hs & Hf & Hst & Hres & Hw' & ->).
    simpl in Hw'. simpl.
    pose proof (λ deps, attached_Inv d (tree w) _ _ _
                  (orgUnitResourceProps props) scope id stack deps Hw
                  (classes_orgUnit d) (orgUnit_mk_token props) Hs Hf Hst Hres)
      as Hatt.
    pose proof (λ deps, attached_sub d (tree w) OrganizationalUnit.className
                  OrganizationalUnit.uniqueid
                  (OrganizationalUnit.providerProps d)
                  (orgUnitResourceProps props) scope id stack deps Hw Hs Hf Hres)
      as Hsub.
    destruct (isLogGroupConfigured w) eqn:Hflag.
    + subst w'. simpl. split_and!; try done.
      * rewrite (attached_this d); [by eexists|done..].
      * by apply attached_logGroups with (d := d).
    + destruct Hw' as (Hpos & Hh & Hlg & ->). simpl.
      set (lg := "LogGroup" :: id :: scope) in *.
      set (att := attached (tree w) OrganizationalUnit.className
                    OrganizationalUnit.uniqueid
                    (OrganizationalUnit.providerProps d)
                    (orgUnitResourceProps props) (id :: scope) stack) in *.
      assert (att [lg] !! lg = None) as Hlg'.
      { rewrite <- Hlg. unfold att, attached.
        by rewrite !(lookup_insert_ne _ ("Resource" :: id :: scope)). }
      assert (att [lg] !! (id :: scope)
              = Some (Instance OrganizationalUnit.className)) as Hthis.
      { by apply (attached_this d). }
      assert (att [lg] ⊆ <[lg := LogGroup (orgUnitLogGroup props stack)]> (att [lg]))
        as Hsub' by by apply insert_subseteq.
      split_and!; try done.
      * apply Inv_insert_inert; [apply Hatt|done|by rewrite Hthis|done].
      * etrans; [apply (Hsub [lg])|done].
      * exists (Instance OrganizationalUnit.className).
        by eapply lookup_weaken.
      * exists stack. split.
        -- transitivity (stackOf (att [lg]) (id :: scope));
             [|by apply (attached_stackOf d)].
           apply (stackOf_weaken (att [lg]) _ (id :: scope));
             [apply Hatt|done|by rewrite Hthis].
        -- rewrite logGroups_insert by done. f_equal.
           by apply attached_logGroups with (d := d).
Qed.

Lemma organizationalUnits_cons c cs :
  Synth.organizationalUnits (c :: cs)
  = (Synth.organizationalUnits [c] ++ Synth.organizationalUnits cs)%list.
Proof. unfold Synth.organizationalUnits. simpl. by destruct c. Qed.

Lemma run_step d cs : ∀ w w' ous,
  Inv d (tree w) → J w ous → Synth.run d cs w = Some ((), w') →
  Inv d (tree w') ∧ J w' (ous ++ Synth.organizationalUnits cs).
Proof.
  induction cs as [|c cs IH]; intros w w' ous Hw HJ H; simpl in H.
  - apply ret_Some in H as [= <-]. by rewrite app_nil_r.
  - apply bind_Some in H as ([] & w1 & H1 & H).
    destruct (exec_step d c w w1 Hw H1) as (Hw1 & Hsub & Heff).
    assert (J w1 (ous ++ Synth.organizationalUnits [c])) as HJ1.
    { destruct ous as [|first rest].
      - destruct HJ as [Hflag Hlg].
        destruct c; simpl in *;
          try (destruct Heff as [-> ->]; by split).
        rewrite Hflag in Heff. destruct Heff as (? & ? & s & ? & ->).
        rewrite Hlg. split_and!; try done. by exists s.
      - destruct HJ as (Hflag & Hfirst & s & Hs & Hlg).
        assert (stackOf (tree w1) first.1 = Some s) as Hs1.
        { rewrite (stackOf_weaken (tree w)); [done|apply Hw|done..]. }
        assert (is_Some (tree w1 !! first.1)) as Hfirst1.
        { destruct Hfirst as [n Hn]. exists n. by eapply lookup_weaken. }
        destruct c; simpl in *.
        1-3: destruct Heff as [-> ->]; split_and!; try done; by exists s.
        rewrite Hflag in Heff. destruct Heff as (-> & _ & ->).
        split_and!; try done. by exists s. }
    destruct (IH w1 w' _ Hw1 HJ1 H) as [Hw' HJ'].
    split; [done|]. rewrite <- app_assoc in HJ'.
    by rewrite organizationalUnits_cons.
Qed.

Lemma run_Inv d cs w :
  Synth.run d cs initial = Some ((), w) →
  Inv d (tree w) ∧ J w (Synth.organizationalUnits cs).
Proof.
  intros H. apply (run_step d cs initial w [] (Inv_initial d)); [|done].
  split; [done|]. simpl. apply map_eq. intros p.
  unfold Synth.logGroups. rewrite lookup_empty.
  apply map_lookup_filter_None. right. intros n Hn.
  by apply lookup_singleton_Some in Hn as [_ <-].
Qed.

Lemma providerId_classes d cls uid pp cls' uid' pp' s s' :
  (cls, uid, pp) ∈ classes d → (cls', uid', pp') ∈ classes d →
  providerId uid :: s = providerId uid' :: s' →
  cls = cls' ∧ uid = uid' ∧ pp = pp'.
Proof.
  unfold classes. rewrite !elem_of_cons, !elem_of_nil.
  intros [[= -> -> ->]|[[= -> -> ->]|[]]] [[= -> -> ->]|[[= -> -> ->]|[]]];
    intros [= ?]; done.
Qed.

Lemma className_classes d cls uid pp uid' pp' :
  (cls, uid, pp) ∈ classes d → (cls, uid', pp') ∈ classes d →
  uid = uid' ∧ pp = pp'.
Proof.
  unfold classes. rewrite !elem_of_cons, !elem_of_nil.
  intros [[= -> -> ->]|[[= -> -> ->]|[]]] [[= -> ->]|[[= -> ->]|[]]]; done.
Qed.


Lemma orgUnit_exec d scope id props w ou w' :
  OrganizationalUnit.constructor d scope id props w = Some (ou, w') →
  Synth.exec d (Synth.NewOrganizationalUnit scope id props) w = Some ((), w').
Proof. intros H. simpl. apply bind_Some. by exists ou, w'. Qed.

Lemma registered d cls uid pp mk scope id stack deps t :
  Inv d t → (cls, uid, pp) ∈ classes d →
  (∀ tok, serviceToken (mk tok) = tok) →
  is_Some (t !! scope) → t !! (id :: scope) = None →
  stackOf t scope = Some stack →
  withProvider (<[id :: scope := Instance cls]> t) (providerId uid :: stack) pp
    !! ("Resource" :: id :: scope) = None →
  let t' := attached t cls uid pp mk (id :: scope) stack deps in
  Registration t t' (id :: scope) stack (providerId uid :: stack) pp
    (mk (tokenOf t' (providerId uid :: stack))) deps.
Proof.
  intros Ht Hcls Hmk Hscope Hthis Hstack Hres t'.
  pose proof (attached_Inv d t cls uid pp mk scope id stack deps
                Ht Hcls Hmk Hscope Hthis Hstack Hres) as Ht'.
  unfold Registration. split_and!.
  - by apply (attached_stackOf d).
  - by apply attached_resource.
  - apply Hmk.
  - by apply attached_slot.
  - intros pp' Hp. destruct (inv_prov _ _ Ht' _ _ Hp)
      as (Hr & _ & cls' & uid' & s' & Hc' & Heq).
    destruct (providerId_classes d _ _ _ _ _ _ _ _ Hcls Hc' Heq) as (_ & _ & <-).
    done.
  - intros Hfree Hne.
    eapply lookup_weaken; [|by apply attached_sub2].
    apply withProvider_new. by rewrite lookup_insert_ne.
Qed.

Lemma Registration_weaken t t' t'' this stack provider pp cr deps :
  Registration t t' this stack provider pp cr deps →
  closed t' → is_Some (t' !! this) → t' ⊆ t'' →
  Registration t t'' this stack provider pp cr deps.
Proof.
  intros (H1 & H2 & H3 & [n H4] & H5 & H6) Hc Hthis Hsub.
  assert (t'' !! provider = Some n) as Hn by by eapply lookup_weaken.
  unfold Registration. split_and!.
  - by rewrite (stackOf_weaken t').
  - by eapply lookup_weaken.
  - rewrite (tokenOf_weaken t'); [done..|by eexists].
  - by eexists.
  - intros pp' Hp. rewrite Hn in Hp. injection Hp as ->.
    destruct (H5 _ H4) as [-> Hr]. split; [done|]. by eapply lookup_weaken.
  - intros Hfree Hne. eapply lookup_weaken; [by apply H6|done].
Qed.

Lemma orgUnit_resource d scope id props w ou w' :
  OrganizationalUnit.constructor d scope id props w = Some (ou, w') →
  ∃ tok,
    tree w' !! ("Resource" :: id :: scope)
    = Some (CustomResource (orgUnitResourceProps props tok)
              (if isLogGroupConfigured w then []
               else ["LogGroup" :: id :: scope])) ∧
    ou = {| OrganizationalUnit.organizationalUnitName := OrganizationalUnit.name props;
            OrganizationalUnit.organizationalUnitPath := OrganizationalUnit.path props;
            OrganizationalUnit.organizationalUnitId := ref ("Resource" :: id :: scope);
            OrganizationalUnit.organizationalUnitArn :=
              getAttString ("Resource" :: id :: scope) "arn" |}.
Proof.
  intros H. apply orgUnit_inv in H as (stack & _ & _ & _ & _ & Hw' & ->).
  simpl in Hw'. eexists. split; [|done].
  destruct (isLogGroupConfigured w).
  - subst w'. simpl. unfold attached. apply lookup_insert_eq.
  - destruct Hw' as (_ & _ & _ & ->). simpl.
    rewrite lookup_insert_ne by done. unfold attached. apply lookup_insert_eq.
Qed.

Lemma orgUnit_configured d scope id props w :
  isLogGroupConfigured w = true →
  OrganizationalUnit.constructor d scope id props w
  = configuredConstructor d scope id (OrganizationalUnit.name props)
      (OrganizationalUnit.path props) w.
Proof.
  intros Hflag.
  unfold OrganizationalUnit.constructor, configuredConstructor.
  apply bind_cong. intros this w1 E1.
  apply newConstruct_Some in E1 as (-> & _ & _ & ->).
  apply bind_cong. intros prov w2 E2.
  apply getOrCreateProvider_Some in E2 as (stack & _ & -> & _ & ->).
  apply bind_cong. intros tok w3 E3.
  unfold get_serviceToken, getTree in E3.
  apply bind_Some in E3 as (? & ? & [= <- <-] & E3).
  apply ret_Some in E3 as [= -> ->].
  apply bind_cong. intros res w4 E4.
  apply newConstruct_Some in E4 as (-> & _ & _ & ->).
  unfold mbind, StateErr_bind. simpl. by rewrite Hflag.
Qed.

(** *** The constructors succeed

    On a tree that satisfies the invariant, a construction under an
    existing scope inside a stack, with a fresh id, goes through when the
    provider slot of the stack is free or holds a provider; the first
    organizational unit needs a positive retention as well. *)






(** ** The claims *)

Section Claims.
Variable dirname : string.

(** C1.  In one synthesis pass, whatever is instantiated and in whatever
    order, the tree ends with no log group when no organizational unit was
    constructed, and otherwise with exactly one: the child [LogGroup] of the
    organizational unit constructed first, with the retention and key of
    that unit's properties.  So the log groups number at most one, and
    exactly one as soon as one organizational unit exists. *)
Theorem one_log_group_first_wins (cs : list Synth.Cmd) (w : World) :
  Synth.run dirname cs initial = Some ((), w) →
  match Synth.organizationalUnits cs with
  | [] => Synth.logGroups (tree w) = ∅
  | first :: _ =>
      ∃ s, stackOf (tree w) first.1 = Some s ∧
        Synth.logGroups (tree w)
        = {[ "LogGroup" :: first.1 := LogGroup (orgUnitLogGroup first.2 s) ]}
  end ∧
  (size (Synth.logGroups (tree w)) ≤ 1)%nat ∧
  (Synth.organizationalUnits cs ≠ [] → size (Synth.logGroups (tree w)) = 1).
Proof.
  intros H. apply run_Inv in H as [_ HJ].
  destruct (Synth.organizationalUnits cs) as [|first rest].
  - destruct HJ as [_ ->]. rewrite map_size_empty. split_and!; [done|lia|done].
  - destruct HJ as (_ & _ & s & Hs & ->). rewrite map_size_singleton.
    split_and!; [by exists s|lia|done].
Qed.

(** C4.  Whenever an EnableAwsServiceAccess is constructed in a synthesis
    pass, the child of its stack under the provider id exists, the custom
    resource takes its service token from it, and when it is a provider its
    policy is the single statement that allows
    [organizations:DisableAWSServiceAccess] and
    [organizations:EnableAwsServiceAccess] on resource [*], which is also
    the policy of the provider's role.  When the id was free in the stack,
    the construction creates that provider. *)
Theorem enable_provider_grant (cs : list Synth.Cmd) (w : World)
    (scope : Path) (id : string)
    (props : EnableAwsServiceAccess.EnableAwsServiceAccessProps)
    (e : EnableAwsServiceAccess.EnableAwsServiceAccess) (w' : World) :
  Synth.run dirname cs initial = Some ((), w) →
  EnableAwsServiceAccess.constructor dirname scope id props w = Some (e, w') →
  ∃ stack cr,
    let provider := providerId EnableAwsServiceAccess.uniqueid :: stack in
    stackOf (tree w') (id :: scope) = Some stack ∧
    tree w' !! ("Resource" :: id :: scope) = Some (CustomResource cr []) ∧
    serviceToken cr = tokenOf (tree w') provider ∧
    is_Some (tree w' !! provider) ∧
    (∀ pp, tree w' !! provider = Some (CustomResourceProvider pp) →
       policyStatements pp = [ enableStatement ] ∧
       tree w' !! ("Role" :: provider) = Some (ProviderRole [ enableStatement ])) ∧
    (tree w !! provider = None → provider ≠ id :: scope →
       ∃ pp, tree w' !! provider = Some (CustomResourceProvider pp)).
Proof.
  intros Hrun H. apply run_Inv in Hrun as [Hw _].
  apply enable_inv in H as (stack & Hs & Hf & Hst & Hres & -> & ->).
  destruct (registered dirname _ _ _ (enableResourceProps props) scope id stack []
              (tree w) Hw (classes_enable dirname) (enable_mk_token props)
              Hs Hf Hst Hres) as (H1 & H2 & H3 & H4 & H5 & H6).
  eexists stack, _. simpl. split_and!; try done.
  - intros pp Hp. by destruct (H5 pp Hp) as [-> ?].
  - intros Hfree Hne. eexists. by apply H6.
Qed.

(** C5.  The same for OrganizationalUnit: the provider of its stack has the
    single statement that allows [organizations:CreateOrganizationalUnit],
    [organizations:ListOrganizationalUnitsForParent],
    [organizations:ListRoots] and [organizations:UpdateOrganizationalUnit]
    on resource [*], and nothing else. *)
Theorem orgUnit_provider_grant (cs : list Synth.Cmd) (w : World)
    (scope : Path) (id : string)
    (props : OrganizationalUnit.OrganizationalUnitProps)
    (ou : OrganizationalUnit.OrganizationalUnit) (w' : World) :
  Synth.run dirname cs initial = Some ((), w) →
  OrganizationalUnit.constructor dirname scope id props w = Some (ou, w') →
  ∃ stack cr deps,
    let provider := providerId OrganizationalUnit.uniqueid :: stack in
    stackOf (tree w') (id :: scope) = Some stack ∧
    tree w' !! ("Resource" :: id :: scope) = Some (CustomResource cr deps) ∧
    serviceToken cr = tokenOf (tree w') provider ∧
    is_Some (tree w' !! provider) ∧
    (∀ pp, tree w' !! provider = Some (CustomResourceProvider pp) →
       policyStatements pp = [ orgUnitStatement ] ∧
       tree w' !! ("Role" :: provider) = Some (ProviderRole [ orgUnitStatement ])) ∧
    (tree w !! provider = None → provider ≠ id :: scope →
       ∃ pp, tree w' !! provider = Some (CustomResourceProvider pp)).
Proof.
  intros Hrun H. apply run_Inv in Hrun as [Hw _].
  apply orgUnit_inv in H as (stack & Hs & Hf & Hst & Hres & Hw' & ->).
  simpl in Hw'.
  pose proof (λ deps, registered dirname _ _ _ (orgUnitResourceProps props)
                scope id stack deps (tree w) Hw (classes_orgUnit dirname)
                (orgUnit_mk_token props) Hs Hf Hst Hres) as Hreg.
  simpl in Hreg.
  assert (∃ deps, Registration (tree w) (tree w') (id :: scope) stack
            (providerId OrganizationalUnit.uniqueid :: stack)
            (OrganizationalUnit.providerProps dirname)
            (orgUnitResourceProps props
               (tokenOf (attached (tree w) OrganizationalUnit.className
                  OrganizationalUnit.uniqueid
                  (OrganizationalUnit.providerProps dirname)
                  (orgUnitResourceProps props) (id :: scope) stack deps)
                  (providerId OrganizationalUnit.uniqueid :: stack))) deps)
    as (deps & H1 & H2 & H3 & H4 & H5 & H6).
  { destruct (isLogGroupConfigured w).
    - subst w'. exists []. apply Hreg.
    - destruct Hw' as (_ & _ & Hlg & ->). simpl.
      exists ["LogGroup" :: id :: scope].
      eapply Registration_weaken; [apply Hreg| | |].
      + eapply attached_closed; eauto.
      + erewrite attached_this; eauto.
      + apply insert_subseteq. rewrite <- Hlg. unfold attached.
        by rewrite !(lookup_insert_ne _ ("Resource" :: id :: scope)). }
  eexists stack, _, deps. simpl. split_and!; try done.
  - intros pp Hp. by destruct (H5 pp Hp) as [-> ?].
  - intros Hfree Hne. eexists. by apply H6.
Qed.

(** C6.  The custom resource of an OrganizationalUnit is of type
    [Custom::CreateOrganizationalUnit] and its properties are exactly
    [partition], [name] and [path], the last two from the props; the key
    and the retention of the props are not among them. *)
Theorem orgUnit_resource_properties (scope : Path) (id : string)
    (props : OrganizationalUnit.OrganizationalUnitProps) (w : World)
    (ou : OrganizationalUnit.OrganizationalUnit) (w' : World) :
  OrganizationalUnit.constructor dirname scope id props w = Some (ou, w') →
  ∃ cr deps,
    tree w' !! ("Resource" :: id :: scope) = Some (CustomResource cr deps) ∧
    resourceType cr = "Custom::CreateOrganizationalUnit" ∧
    properties cr
    = [ ("partition", Aws_PARTITION);
        ("name", VStr (OrganizationalUnit.name props));
        ("path", VStr (OrganizationalUnit.path props)) ].
Proof.
  intros H. apply orgUnit_resource in H as (tok & H & _).
  by eexists _, _.
Qed.

(** C7.  An OrganizationalUnit exposes the ref of its custom resource as
    [organizationalUnitId], the [arn] attribute of that resource as
    [organizationalUnitArn], and the name and path of its props; an
    EnableAwsServiceAccess exposes the ref of its custom resource as [id].
    In both, the custom resource is the child [Resource] of the object. *)
Theorem exposed_identifiers :
  (∀ scope id props w ou w',
     OrganizationalUnit.constructor dirname scope id props w = Some (ou, w') →
     ∃ cr deps,
       tree w' !! ("Resource" :: id :: scope) = Some (CustomResource cr deps) ∧
       OrganizationalUnit.organizationalUnitId ou
         = ref ("Resource" :: id :: scope) ∧
       OrganizationalUnit.organizationalUnitArn ou
         = getAttString ("Resource" :: id :: scope) "arn" ∧
       OrganizationalUnit.organizationalUnitName ou
         = OrganizationalUnit.name props ∧
       OrganizationalUnit.organizationalUnitPath ou
         = OrganizationalUnit.path props) ∧
  (∀ scope id props w e w',
     EnableAwsServiceAccess.constructor dirname scope id props w = Some (e, w') →
     ∃ cr deps,
       tree w' !! ("Resource" :: id :: scope) = Some (CustomResource cr deps) ∧
       EnableAwsServiceAccess.id e = ref ("Resource" :: id :: scope)).
Proof.
  split.
  - intros scope id props w ou w' H.
    apply orgUnit_resource in H as (tok & H & ->). by eexists _, _.
  - intros scope id props w e w' H.
    apply enable_inv in H as (stack & _ & _ & _ & _ & -> & ->).
    eexists _, _. split; [|done]. simpl. unfold attached.
    apply lookup_insert_eq.
Qed.

(** C8.  An OrganizationalUnit constructed after another one in the same
    pass gets no [LogGroup] child, adds no log group to the tree and gives
    its custom resource no dependency.  The key and the retention of its
    props do not matter: any other values give the same object and the same
    tree.  Against a construction on the same tree with the flag not yet
    set, the object is the same and the tree lacks only the log group and
    the dependency on it. *)
Theorem later_units_skip_log_group (cs : list Synth.Cmd) (w : World)
    (scope : Path) (id : string)
    (props : OrganizationalUnit.OrganizationalUnitProps)
    (ou : OrganizationalUnit.OrganizationalUnit) (w' : World) :
  Synth.run dirname cs initial = Some ((), w) →
  Synth.organizationalUnits cs ≠ [] →
  OrganizationalUnit.constructor dirname scope id props w = Some (ou, w') →
  let resource := "Resource" :: id :: scope in
  let logGroup := "LogGroup" :: id :: scope in
  tree w' !! logGroup = None ∧
  Synth.logGroups (tree w') = Synth.logGroups (tree w) ∧
  (∃ cr, tree w' !! resource = Some (CustomResource cr [])) ∧
  (∀ key days,
     OrganizationalUnit.constructor dirname scope id
       {| OrganizationalUnit.name := OrganizationalUnit.name props;
          OrganizationalUnit.path := OrganizationalUnit.path props;
          OrganizationalUnit.kmsKey := key;
          OrganizationalUnit.logRetentionInDays := days |} w
     = Some (ou, w')) ∧
  (∀ w0 ou0 w0',
     tree w0 = tree w → isLogGroupConfigured w0 = false →
     OrganizationalUnit.constructor dirname scope id props w0 = Some (ou0, w0') →
     ou0 = ou ∧
     ∃ lg, tree w0' = <[logGroup := LogGroup lg]>
                        (alter (addDep logGroup) resource (tree w'))).
Proof.
  intros Hrun Hne H resource logGroup.
  apply run_Inv in Hrun as [Hw HJ].
  assert (isLogGroupConfigured w = true) as Hflag.
  { destruct (Synth.organizationalUnits cs); [done|]. by destruct HJ. }
  pose proof (orgUnit_exec _ _ _ _ _ _ _ H) as Hexec.
  destruct (exec_step _ _ _ _ Hw Hexec) as (Hw' & Hsub & (_ & Hthis & Hlgs)).
  rewrite Hflag in Hlgs.
  pose proof H as Hinv.
  apply orgUnit_inv in Hinv as (stack & Hs & Hf & Hst & Hres & Hw'eq & Hou).
  simpl in Hw'eq. rewrite Hflag in Hw'eq.
  split_and!.
  - subst w'. simpl.
    match goal with |- ?x = None => destruct x as [n|] eqn:E; [|done] end.
    exfalso. apply attached_lookup in E.
    pose proof (closed_child_None _ "LogGroup" _ (inv_closed _ _ Hw) Hf).
    pose proof (path_cons_ne "LogGroup" (id :: scope)).
    unfold logGroup in *. naive_solver.
  - done.
  - apply orgUnit_resource in H as (tok & H & _). rewrite Hflag in H. eauto.
  - intros key days. rewrite orgUnit_configured by done. simpl.
    by rewrite <- (orgUnit_configured dirname scope id props).
  - intros w0 ou0 w0' Ht0 Hflag0 H0.
    apply orgUnit_inv in H0 as (stack0 & _ & _ & Hst0 & _ & Hw0' & ->).
    simpl in Hw0'. rewrite Hflag0, Ht0 in Hw0'. rewrite Ht0 in Hst0.
    assert (stack0 = stack) as -> by congruence.
    destruct Hw0' as (_ & _ & Hlg & ->). split; [done|]. simpl.
    exists (orgUnitLogGroup props stack). subst w'. simpl.
    unfold attached. by rewrite alter_insert_eq.
Qed.


End Claims.

Section PipelineClaims.
Import Pipeline.
Variables stack_account stack_region stack_partition : string.
Variable AcceleratorStage : AcceleratorStageEnum.
Variable getRepository : ConfigRepositoryProps → Repository.

Abbreviation construct :=
  (constructor stack_account stack_region stack_partition AcceleratorStage
     getRepository).




End PipelineClaims.

(** ** The claims on a concrete pass *)

Lemma demoPass_runs : Synth.run "lib" demoPass initial = Some ((), demoWorld).
Proof. by_vm. Qed.

Lemma demoEnable_runs :
  EnableAwsServiceAccess.constructor "lib" ["Organizations"] "Macie"
    demoAccess demoWorld = Some (demoEnable.1, demoEnable.2).
Proof. by_vm. Qed.

Lemma demoLater_runs :
  OrganizationalUnit.constructor "lib" ["Organizations"] "Sandbox"
    (demoUnit "Sandbox" (-1)) demoWorld = Some (demoLater.1, demoLater.2).
Proof. by_vm. Qed.

Lemma one_log_group_first_wins_witness :
  Synth.run "lib" demoPass initial = Some ((), demoWorld) ∧
  size (Synth.logGroups (tree demoWorld)) = 1 ∧
  ∃ s, Synth.logGroups (tree demoWorld)
       = {[ ["LogGroup"; "Security"; "Organizations"]
            := LogGroup (orgUnitLogGroup (demoUnit "Security" 365) s) ]}.
Proof.
  pose proof demoPass_runs as H.
  destruct (one_log_group_first_wins "lib" demoPass demoWorld H)
    as (Hfirst & _ & Hone).
  split; [exact H|]. split.
  - apply Hone. discriminate.
  - destruct Hfirst as (s & _ & Hs). exists s. exact Hs.
Defined.

Lemma enable_provider_grant_witness :
  Synth.run "lib" demoPass initial = Some ((), demoWorld) ∧
  EnableAwsServiceAccess.constructor "lib" ["Organizations"] "Macie"
    demoAccess demoWorld = Some (demoEnable.1, demoEnable.2) ∧
  ∃ stack,
    is_Some (tree demoEnable.2
               !! (providerId EnableAwsServiceAccess.uniqueid :: stack)).
Proof.
  split; [exact demoPass_runs|]. split; [exact demoEnable_runs|].
  destruct (enable_provider_grant "lib" demoPass demoWorld ["Organizations"]
              "Macie" demoAccess _ _ demoPass_runs demoEnable_runs)
    as (stack & cr & _ & _ & _ & Hslot & _).
  exists stack. exact Hslot.
Defined.

Lemma orgUnit_provider_grant_witness :
  Synth.run "lib" demoPass initial = Some ((), demoWorld) ∧
  OrganizationalUnit.constructor "lib" ["Organizations"] "Sandbox"
    (demoUnit "Sandbox" (-1)) demoWorld = Some (demoLater.1, demoLater.2) ∧
  ∃ stack,
    is_Some (tree demoLater.2
               !! (providerId OrganizationalUnit.uniqueid :: stack)).
Proof.
  split; [exact demoPass_runs|]. split; [exact demoLater_runs|].
  destruct (orgUnit_provider_grant "lib" demoPass demoWorld ["Organizations"]
              "Sandbox" (demoUnit "Sandbox" (-1)) _ _
              demoPass_runs demoLater_runs)
    as (stack & cr & deps & _ & _ & _ & Hslot & _).
  exists stack. exact Hslot.
Defined.

Lemma orgUnit_resource_properties_witness :
  OrganizationalUnit.constructor "lib" ["Organizations"] "Sandbox"
    (demoUnit "Sandbox" (-1)) demoWorld = Some (demoLater.1, demoLater.2) ∧
  ∃ cr deps,
    tree demoLater.2 !! ["Resource"; "Sandbox"; "Organizations"]
    = Some (CustomResource cr deps) ∧
    properties cr = [ ("partition", Aws_PARTITION);
                      ("name", VStr "Sandbox");
                      ("path", VStr "/") ].
Proof.
  split; [exact demoLater_runs|].
  destruct (orgUnit_resource_properties "lib" ["Organizations"] "Sandbox"
              (demoUnit "Sandbox" (-1)) demoWorld _ _ demoLater_runs)
    as (cr & deps & H1 & _ & H2).
  exists cr, deps. split; [exact H1|exact H2].
Defined.

Lemma exposed_identifiers_witness :
  OrganizationalUnit.organizationalUnitId demoLater.1
    = ref ["Resource"; "Sandbox"; "Organizations"] ∧
  EnableAwsServiceAccess.id demoEnable.1
    = ref ["Resource"; "Macie"; "Organizations"].
Proof.
  destruct (exposed_identifiers "lib") as [Hou Hen]. split.
  - destruct (Hou _ _ _ _ _ _ demoLater_runs) as (cr & deps & _ & H & _).
    exact H.
  - destruct (Hen _ _ _ _ _ _ demoEnable_runs) as (cr & deps & _ & H).
    exact H.
Defined.

Lemma later_units_skip_log_group_witness :
  Synth.run "lib" demoPass initial = Some ((), demoWorld) ∧
  Synth.organizationalUnits demoPass ≠ [] ∧
  OrganizationalUnit.constructor "lib" ["Organizations"] "Sandbox"
    (demoUnit "Sandbox" (-1)) demoWorld = Some (demoLater.1, demoLater.2) ∧
  tree demoLater.2 !! ["LogGroup"; "Sandbox"; "Organizations"] = None ∧
  OrganizationalUnit.constructor "lib" ["Organizations"] "Sandbox"
    (demoUnit "Sandbox" 30) demoWorld = Some (demoLater.1, demoLater.2).
Proof.
  assert (Synth.organizationalUnits demoPass ≠ []) as Hne by discriminate.
  split; [exact demoPass_runs|]. split; [exact Hne|].
  split; [exact demoLater_runs|].
  destruct (later_units_skip_log_group "lib" demoPass demoWorld
              ["Organizations"] "Sandbox" (demoUnit "Sandbox" (-1)) _ _
              demoPass_runs Hne demoLater_runs)
    as (Hnone & _ & _ & Hany & _).
  split; [exact Hnone|]. exact (Hany demoKey 30%Z).
Defined.


(** ** Further properties of the organizations constructs *)

Section Further.
Variable dirname : string.

Lemma exec_flag c w w' :
  Synth.exec dirname c w = Some ((), w') →
  isLogGroupConfigured w'
  = (isLogGroupConfigured w || isOrganizationalUnit c).
Proof.
  intros H. destruct c as [scope id|scope id|scope id props|scope id props];
    simpl in H; apply bind_Some in H as (a & w1 & H & Hret);
    apply ret_Some in Hret as [= <-]; simpl.
  - apply newConstruct_Some in H as (_ & _ & _ & ->). simpl.
    by rewrite orb_false_r.
  - apply newConstruct_Some in H as (_ & _ & _ & ->). simpl.
    by rewrite orb_false_r.
  - apply enable_inv in H as (stack & _ & _ & _ & _ & -> & _). simpl.
    by rewrite orb_false_r.
  - apply orgUnit_inv in H as (stack & _ & _ & _ & _ & Hw' & _).
    simpl in Hw'. rewrite orb_true_r.
    destruct (isLogGroupConfigured w) eqn:Hflag.
    + subst w'. done.
    + by destruct Hw' as (_ & _ & _ & ->).
Qed.

(** X1.  After a pass, from whatever state of the process, the flag is set
    exactly when it was set before or the pass constructed an organizational
    unit: nothing ever clears it. *)
Theorem flag_set_by_units_only (cs : list Synth.Cmd) (w w' : World) :
  Synth.run dirname cs w = Some ((), w') →
  isLogGroupConfigured w'
  = match Synth.organizationalUnits cs with
    | [] => isLogGroupConfigured w
    | _ :: _ => true
    end.
Proof.
  revert w. induction cs as [|c cs IH]; intros w H; simpl in H.
  - by apply ret_Some in H as [= <-].
  - apply bind_Some in H as ([] & w1 & H1 & H).
    rewrite (IH _ H), organizationalUnits_cons.
    rewrite (exec_flag _ _ _ H1).
    destruct c; simpl; try by rewrite orb_false_r.
    rewrite orb_true_r. by destruct (Synth.organizationalUnits cs).
Qed.

(** X2.  The custom resource of an EnableAwsServiceAccess is of type
    [Custom::EnableAwsServiceAccess], has the partition and the service
    principal of the props as its only properties, and depends on
    nothing. *)
Theorem enable_resource_properties (scope : Path) (id : string)
    (props : EnableAwsServiceAccess.EnableAwsServiceAccessProps) (w : World)
    (e : EnableAwsServiceAccess.EnableAwsServiceAccess) (w' : World) :
  EnableAwsServiceAccess.constructor dirname scope id props w = Some (e, w') →
  ∃ cr,
    tree w' !! ("Resource" :: id :: scope) = Some (CustomResource cr []) ∧
    resourceType cr = "Custom::EnableAwsServiceAccess" ∧
    properties cr
    = [ ("partition", Aws_PARTITION);
        ("servicePrincipal",
         VStr (EnableAwsServiceAccess.servicePrincipal props)) ].
Proof.
  intros H. apply enable_inv in H as (stack & _ & _ & _ & _ & -> & _).
  eexists. simpl. unfold attached. rewrite lookup_insert_eq. done.
Qed.


(** X4.  A construction that finds the flag unset throws when the retention
    of the props is not positive. *)
Theorem first_unit_rejects_retention (scope : Path) (id : string)
    (props : OrganizationalUnit.OrganizationalUnitProps) (w : World) :
  isLogGroupConfigured w = false →
  (OrganizationalUnit.logRetentionInDays props ≤ 0)%Z →
  OrganizationalUnit.constructor dirname scope id props w = None.
Proof.
  intros Hflag Hle.
  destruct (OrganizationalUnit.constructor dirname scope id props w)
    as [[ou w']|] eqn:H; [|done].
  apply orgUnit_inv in H as (stack & _ & _ & _ & _ & Hw' & _).
  simpl in Hw'. rewrite Hflag in Hw'. destruct Hw' as (Hpos & _). lia.
Qed.



Lemma run_app cs1 cs2 w r :
  Synth.run dirname (cs1 ++ cs2) w = Some r ↔
  ∃ w1, Synth.run dirname cs1 w = Some ((), w1) ∧
        Synth.run dirname cs2 w1 = Some r.
Proof.
  revert w. induction cs1 as [|c cs1 IH]; intros w; simpl.
  - split.
    + intros H. by exists w.
    + by intros (w1 & [= <-] & H).
  - rewrite bind_Some. split.
    + intros ([] & w0 & H0 & H). apply IH in H as (w1 & H1 & H2).
      exists w1. split; [|done]. apply bind_Some. by exists (), w0.
    + intros (w1 & H1 & H2). apply bind_Some in H1 as ([] & w0 & H0 & H1).
      exists (), w0. split; [done|]. apply IH. by exists w1.
Qed.

Lemma run_mono cs : ∀ w w',
  Inv dirname (tree w) → Synth.run dirname cs w = Some ((), w') →
  Inv dirname (tree w') ∧ tree w ⊆ tree w'.
Proof.
  induction cs as [|c cs IH]; intros w w' Hw H; simpl in H.
  - by apply ret_Some in H as [= <-].
  - apply bind_Some in H as ([] & w1 & H1 & H).
    destruct (exec_step _ _ _ _ Hw H1) as (Hw1 & Hsub & _).
    destruct (IH _ _ Hw1 H) as [Hw' Hsub']. split; [done|by etrans].
Qed.

(** X7.  A pass keeps what its beginning has built: the pass [cs1 ++ cs2]
    goes through [cs1] first, and every construct of the tree after [cs1]
    is in the final tree, unchanged. *)
Theorem pass_keeps_constructs (cs1 cs2 : list Synth.Cmd) (w2 : World) :
  Synth.run dirname (cs1 ++ cs2) initial = Some ((), w2) →
  ∃ w1, Synth.run dirname cs1 initial = Some ((), w1) ∧
        Synth.run dirname cs2 w1 = Some ((), w2) ∧
        ∀ p n, tree w1 !! p = Some n → tree w2 !! p = Some n.
Proof.
  intros H. apply run_app in H as (w1 & H1 & H2). exists w1.
  split_and!; try done.
  pose proof H1 as [Hw1 _]%run_Inv.
  destruct (run_mono _ _ _ Hw1 H2) as [_ Hsub].
  intros p n Hp. by eapply lookup_weaken.
Qed.

(** The log groups a single instantiation adds. *)
Lemma exec_logGroup c w w' p lg :
  Inv dirname (tree w) → Synth.exec dirname c w = Some ((), w') →
  tree w' !! p = Some (LogGroup lg) →
  tree w !! p = Some (LogGroup lg) ∨
  ∃ scope id props stack,
    c = Synth.NewOrganizationalUnit scope id props ∧
    isLogGroupConfigured w = false ∧
    p = "LogGroup" :: id :: scope ∧ lg = orgUnitLogGroup props stack ∧
    is_Some (tree w' !! ("Handler" :: providerId OrganizationalUnit.uniqueid
                         :: stack)).
Proof.
  intros Hw H Hp. destruct c as [scope id|scope id|scope id props|scope id props];
    simpl in H; apply bind_Some in H as (a & w1 & H & Hret);
    apply ret_Some in Hret as [= <-].
  - apply newConstruct_Some in H as (_ & _ & _ & ->). simpl in Hp.
    apply lookup_insert_Some in Hp as [[_ [=]]|[_ ?]]. by left.
  - apply newConstruct_Some in H as (_ & _ & _ & ->). simpl in Hp.
    apply lookup_insert_Some in Hp as [[_ [=]]|[_ ?]]. by left.
  - apply enable_inv in H as (stack & _ & _ & _ & _ & -> & _). simpl in Hp.
    apply attached_lookup in Hp. left. naive_solver.
  - apply orgUnit_inv in H as (stack & _ & _ & _ & _ & Hw' & _).
    simpl in Hw'. destruct (isLogGroupConfigured w) eqn:Hflag.
    + subst w'. simpl in Hp. apply attached_lookup in Hp. left. naive_solver.
    + destruct Hw' as (_ & [h Hh] & _ & ->). simpl in Hp.
      apply lookup_insert_Some in Hp as [[<- [= <-]]|[_ Hp]].
      * right. exists scope, id, props, stack. split_and!; try done.
        exists h. simpl. rewrite lookup_insert_ne by done.
        rewrite <- Hh. unfold attached.
        by rewrite !(lookup_insert_ne _ ("Resource" :: id :: scope)).
      * apply attached_lookup in Hp. left. naive_solver.
Qed.

Lemma exec_namesHandler c w w' :
  Inv dirname (tree w) → namesHandler (tree w) →
  Synth.exec dirname c w = Some ((), w') → namesHandler (tree w').
Proof.
  intros Hw HK H p lg Hp.
  destruct (exec_step _ _ _ _ Hw H) as (_ & Hsub & _).
  destruct (exec_logGroup _ _ _ _ _ Hw H Hp)
    as [Hold|(scope & id & props & stack & _ & _ & _ & -> & Hh)].
  - destruct (HK _ _ Hold) as (s & Hname & Hh). exists s. split; [done|].
    by eapply lookup_weaken_is_Some.
  - by exists stack.
Qed.

Lemma run_namesHandler cs : ∀ w w',
  Inv dirname (tree w) → namesHandler (tree w) →
  Synth.run dirname cs w = Some ((), w') → namesHandler (tree w').
Proof.
  induction cs as [|c cs IH]; intros w w' Hw HK H; simpl in H.
  - by apply ret_Some in H as [= <-].
  - apply bind_Some in H as ([] & w1 & H1 & H).
    destruct (exec_step _ _ _ _ Hw H1) as (Hw1 & _ & _).
    apply (IH w1 w' Hw1); [|done]. by apply (exec_namesHandler c w w1).
Qed.

Lemma run_initial_namesHandler cs w :
  Synth.run dirname cs initial = Some ((), w) → namesHandler (tree w).
Proof.
  intros Hrun.
  eapply (run_namesHandler cs initial w (Inv_initial dirname)); [|done].
  intros q l Hq. simpl in Hq. by apply lookup_singleton_Some in Hq as [_ ?].
Qed.


(** X9.  The flag is one for the whole process, the provider one per stack.
    So a unit constructed after the first one, in a stack that has no
    provider yet, gets a new provider with its handler, and no log group of
    the tree is named after that handler. *)
Theorem other_stack_handler_unlogged (cs : list Synth.Cmd) (w : World)
    (scope : Path) (id : string)
    (props : OrganizationalUnit.OrganizationalUnitProps)
    (ou : OrganizationalUnit.OrganizationalUnit) (w' : World) (stack : Path) :
  let slot := providerId OrganizationalUnit.uniqueid :: stack in
  Synth.run dirname cs initial = Some ((), w) →
  Synth.organizationalUnits cs ≠ [] →
  stackOf (tree w) scope = Some stack →
  tree w !! slot = None →
  id ≠ providerId OrganizationalUnit.uniqueid →
  OrganizationalUnit.constructor dirname scope id props w = Some (ou, w') →
  tree w' !! slot
    = Some (CustomResourceProvider (OrganizationalUnit.providerProps dirname)) ∧
  tree w' !! ("Handler" :: slot)
    = Some (ProviderHandler NODEJS_14_X
              (path_join dirname "create-organizational-unit/dist")) ∧
  ∀ p lg, tree w' !! p = Some (LogGroup lg) →
    logGroupName lg ≠ VConcat (VStr "/aws/lambda/") (ref ("Handler" :: slot)).
Proof.
  intros slot Hrun Hne Hst Hfree Hid H.
  pose proof (run_initial_namesHandler cs w Hrun) as HK.
  pose proof Hrun as [Hw HJ]%run_Inv.
  assert (isLogGroupConfigured w = true) as Hflag.
  { destruct (Synth.organizationalUnits cs); [done|]. by destruct HJ. }
  pose proof (orgUnit_exec _ _ _ _ _ _ _ H) as Hexec.
  destruct (exec_step _ _ _ _ Hw Hexec) as (Hw' & Hsub & _).
  pose proof H as Hinv.
  apply orgUnit_inv in Hinv as (stack0 & Hs & Hf & Hst0 & Hres & Hw'eq & _).
  simpl in Hw'eq. rewrite Hflag in Hw'eq.
  assert (stack0 = stack) as -> by congruence.
  assert (tree w' !! slot
          = Some (CustomResourceProvider (OrganizationalUnit.providerProps dirname)))
    as Hslot.
  { subst w'. simpl. eapply lookup_weaken; [|by apply attached_sub2].
    apply withProvider_new. rewrite lookup_insert_ne; [done|].
    unfold slot. intros [= ? ?]. done. }
  split_and!.
  - done.
  - by destruct (inv_prov _ _ Hw' _ _ Hslot) as (_ & ? & _).
  - intros p lg Hp Hname.
    destruct (exec_logGroup _ _ _ _ _ Hw Hexec Hp)
      as [Hold|(? & ? & ? & ? & _ & Hfalse & _)]; [|congruence].
    destruct (HK _ _ Hold) as (s & Hname' & Hh).
    rewrite Hname in Hname'. injection Hname' as <-.
    apply (inv_closed _ _ Hw) in Hh. fold slot in Hh.
    rewrite Hfree in Hh. by destruct Hh.
Qed.

(** X10.  An EnableAwsServiceAccess and an OrganizationalUnit never share a
    provider: after any pass their custom resources carry different service
    tokens, in whatever stacks they lie. *)
Theorem classes_use_different_providers (cs : list Synth.Cmd) (w : World)
    (p1 p2 : Path) (cr1 cr2 : CustomResourceProps) (deps1 deps2 : list Path)
    (token : CfnValue) :
  Synth.run dirname cs initial = Some ((), w) →
  tree w !! p1 = Some (Instance EnableAwsServiceAccess.className) →
  tree w !! p2 = Some (Instance OrganizationalUnit.className) →
  tree w !! ("Resource" :: p1) = Some (CustomResource cr1 deps1) →
  tree w !! ("Resource" :: p2) = Some (CustomResource cr2 deps2) →
  serviceToken cr1 = Some token →
  serviceToken cr2 ≠ Some token.
Proof.
  intros Hrun Hp1 Hp2 Hr1 Hr2 Htok1 Htok2.
  apply run_Inv in Hrun as [Hw _].
  destruct (inv_inst _ _ Hw _ _ Hp1)
    as (uid1 & pp1 & s1 & cr1' & d1 & Hc1 & _ & Hr1' & _ & Ht1).
  destruct (inv_inst _ _ Hw _ _ Hp2)
    as (uid2 & pp2 & s2 & cr2' & d2 & Hc2 & _ & Hr2' & _ & Ht2).
  rewrite Hr1 in Hr1'. injection Hr1' as <- <-.
  rewrite Hr2 in Hr2'. injection Hr2' as <- <-.
  destruct (className_classes _ _ _ _ _ _ Hc1 (classes_enable dirname))
    as [-> ->].
  destruct (className_classes _ _ _ _ _ _ Hc2 (classes_orgUnit dirname))
    as [-> ->].
  rewrite Htok1 in Ht1. rewrite Htok2 in Ht2. unfold tokenOf in Ht1, Ht2.
  repeat case_match; simplify_eq.
Qed.

Lemma providerIds_not_child x :
  x ∈ providerIds → x ∉ [ "Resource"; "Role"; "Handler"; "LogGroup" ].
Proof.
  unfold providerIds. rewrite !elem_of_cons, !elem_of_nil.
  intros [->|[->|[]]] [H|[H|[H|[H|[]]]]]; discriminate H.
Qed.

Lemma providerIds_classes cls uid pp :
  (cls, uid, pp) ∈ classes dirname → providerId uid ∈ providerIds.
Proof.
  unfold classes, providerIds. rewrite !elem_of_cons, !elem_of_nil.
  intros [[= -> -> ->]|[[= -> -> ->]|[]]]; auto.
Qed.

Lemma attached_providersOnly t cls uid pp mk scope id stack deps :
  providersOnly t → id ∉ providerIds → (cls, uid, pp) ∈ classes dirname →
  providersOnly (attached t cls uid pp mk (id :: scope) stack deps).
Proof.
  intros Ht Hid Hcls x s n Hx Hn.
  pose proof (providerIds_not_child x Hx) as Hch.
  rewrite !not_elem_of_cons in Hch. destruct Hch as (? & ? & ? & ? & _).
  apply attached_lookup in Hn
    as [Hn|[[[= -> ->] _]|[[[= ? ?] _]|[_ [[_ ->]|[[[= ? ?] _]|[[= ? ?] _]]]]]]];
    try done.
  - by eapply Ht.
  - by eexists.
Qed.

Lemma exec_providersOnly c w w' :
  cmdId c ∉ providerIds → providersOnly (tree w) →
  Synth.exec dirname c w = Some ((), w') → providersOnly (tree w').
Proof.
  intros Hid Ht H.
  destruct c as [scope id|scope id|scope id props|scope id props];
    simpl in H, Hid; apply bind_Some in H as (a & w1 & H & Hret);
    apply ret_Some in Hret as [= <-].
  - apply newConstruct_Some in H as (_ & _ & _ & ->). simpl.
    intros x s n Hx Hn. apply lookup_insert_Some in Hn as [[[= -> ->] _]|[_ Hn]];
      [done|by eapply Ht].
  - apply newConstruct_Some in H as (_ & _ & _ & ->). simpl.
    intros x s n Hx Hn. apply lookup_insert_Some in Hn as [[[= -> ->] _]|[_ Hn]];
      [done|by eapply Ht].
  - apply enable_inv in H as (stack & _ & _ & _ & _ & -> & _). simpl.
    apply attached_providersOnly; auto using classes_enable.
  - apply orgUnit_inv in H as (stack & _ & _ & _ & _ & Hw' & _).
    simpl in Hw'. destruct (isLogGroupConfigured w).
    + subst w'. simpl. apply attached_providersOnly; auto using classes_orgUnit.
    + destruct Hw' as (_ & _ & _ & ->). simpl.
      intros x s n Hx Hn.
      apply lookup_insert_Some in Hn as [[[= ? ?] _]|[_ Hn]].
      * subst x. apply providerIds_not_child in Hx.
        rewrite !not_elem_of_cons in Hx. by destruct Hx as (_ & _ & _ & ? & _).
      * revert Hn. by eapply attached_providersOnly; auto using classes_orgUnit.
Qed.

Lemma run_providersOnly cs : ∀ w w',
  Forall (λ c, cmdId c ∉ providerIds) cs → providersOnly (tree w) →
  Synth.run dirname cs w = Some ((), w') → providersOnly (tree w').
Proof.
  induction cs as [|c cs IH]; intros w w' Hids Ht H; simpl in H.
  - by apply ret_Some in H as [= <-].
  - apply bind_Some in H as ([] & w1 & H1 & H).
    apply Forall_cons in Hids as [Hid Hids].
    apply (IH w1 w' Hids); [|done]. by apply (exec_providersOnly c w w1).
Qed.

(** X11.  In a pass that gives no construct one of the two provider ids,
    every instance of either class has a custom resource whose service token
    is defined: it is the Arn of the handler of the provider of the
    instance's stack, and that provider, with the properties of the class,
    and its handler, on the nodejs14.x runtime, are in the tree. *)
Theorem service_token_defined (cs : list Synth.Cmd) (w : World)
    (p : Path) (cls : string) :
  Synth.run dirname cs initial = Some ((), w) →
  Forall (λ c, cmdId c ∉ providerIds) cs →
  tree w !! p = Some (Instance cls) →
  ∃ uid pp s cr deps,
    let provider := providerId uid :: s in
    (cls, uid, pp) ∈ classes dirname ∧
    stackOf (tree w) p = Some s ∧
    tree w !! ("Resource" :: p) = Some (CustomResource cr deps) ∧
    serviceToken cr = Some (getAttString ("Handler" :: provider) "Arn") ∧
    tree w !! provider = Some (CustomResourceProvider pp) ∧
    tree w !! ("Handler" :: provider)
      = Some (ProviderHandler NODEJS_14_X (codeDirectory pp)).
Proof.
  intros Hrun Hids Hp.
  assert (providersOnly (tree w)) as Hpo.
  { eapply (run_providersOnly cs initial w Hids); [|done].
    intros x s n _ Hn. simpl in Hn.
    by apply lookup_singleton_Some in Hn as [? _]. }
  apply run_Inv in Hrun as [Hw _].
  destruct (inv_inst _ _ Hw _ _ Hp)
    as (uid & pp & s & cr & deps & Hc & Hs & Hr & [n Hslot] & Htok).
  destruct (Hpo _ _ _ (providerIds_classes _ _ _ Hc) Hslot) as [pp' ->].
  destruct (inv_prov _ _ Hw _ _ Hslot)
    as (_ & Hh & cls' & uid' & s' & Hc' & Heq).
  destruct (providerId_classes _ _ _ _ _ _ _ _ _ Hc Hc' Heq) as (_ & _ & <-).
  exists uid, pp, s, cr, deps. simpl. split_and!; try done.
  - rewrite Htok. unfold tokenOf. by rewrite Hslot.
  - rewrite Hh. do 2 f_equal.
    unfold classes in Hc. rewrite !elem_of_cons, elem_of_nil in Hc.
    by destruct Hc as [[= -> -> ->]|[[= -> -> ->]|[]]].
Qed.

Lemma run_configured cs : ∀ w w',
  Inv dirname (tree w) → isLogGroupConfigured w = true →
  Synth.run dirname cs w = Some ((), w') →
  Synth.logGroups (tree w') = Synth.logGroups (tree w).
Proof.
  induction cs as [|c cs IH]; intros w w' Hw Hflag H; simpl in H.
  - by apply ret_Some in H as [= <-].
  - apply bind_Some in H as ([] & w1 & H1 & H).
    destruct (exec_step _ _ _ _ Hw H1) as (Hw1 & _ & Heff).
    assert (isLogGroupConfigured w1 = true
            ∧ Synth.logGroups (tree w1) = Synth.logGroups (tree w)) as [Hf1 <-].
    { destruct c; simpl in Heff.
      1-3: destruct Heff as [Hf Hl]; split; [congruence|done].
      rewrite Hflag in Heff. by destruct Heff as (? & _ & ?). }
    by apply IH.
Qed.

(** X12.  The flag outlives the tree.  When a pass has constructed an
    organizational unit and the same process then runs a pass on a new
    tree, the new tree gets no log group, whatever the second pass
    constructs. *)
Theorem second_pass_without_log_group (cs1 cs2 : list Synth.Cmd)
    (w1 w2 : World) :
  Synth.run dirname cs1 initial = Some ((), w1) →
  Synth.organizationalUnits cs1 ≠ [] →
  Synth.run dirname cs2
    {| isLogGroupConfigured := isLogGroupConfigured w1;
       tree := tree initial |} = Some ((), w2) →
  Synth.logGroups (tree w2) = ∅.
Proof.
  intros H1 Hne H2. apply run_Inv in H1 as [_ HJ].
  destruct (Synth.organizationalUnits cs1); [done|].
  destruct HJ as [Hflag _]. rewrite Hflag in H2.
  rewrite (run_configured cs2
             {| isLogGroupConfigured := true; tree := tree initial |} w2
             (Inv_initial dirname) eq_refl H2).
  simpl. apply map_eq. intros q. unfold Synth.logGroups.
  rewrite lookup_empty. apply map_lookup_filter_None. right. intros n Hn.
  by apply lookup_singleton_Some in Hn as [_ <-].
Qed.




End Further.

(** ** Further properties of the pipeline *)

Section PipelineFurther.
Import Pipeline.
Variables stack_account stack_region stack_partition : string.
Variable AcceleratorStage : AcceleratorStageEnum.
Variable getRepository : ConfigRepositoryProps → Repository.

Local Abbreviation build :=
  (constructor stack_account stack_region stack_partition AcceleratorStage
     getRepository).




End PipelineFurther.

(** ** The further properties on concrete passes *)


Lemma demoTwoStacks_runs :
  Synth.run "lib" (demoPass ++ [ Synth.NewStack [] "Accounts" ]) initial
  = Some ((), demoTwoStacks).
Proof. by_vm. Qed.

Lemma demoOther_runs :
  OrganizationalUnit.constructor "lib" ["Accounts"] "Suspended"
    (demoUnit "Suspended" 30) demoTwoStacks = Some (demoOther.1, demoOther.2).
Proof. by_vm. Qed.

Lemma demoSecond_runs :
  Synth.run "lib" demoSecondPass
    {| isLogGroupConfigured := isLogGroupConfigured demoWorld;
       tree := tree initial |} = Some ((), demoSecond).
Proof. by_vm. Qed.

Lemma demoFresh_flag : isLogGroupConfigured demoFresh = false.
Proof. by_vm. Qed.

Lemma demoPass_ids : Forall (λ c, cmdId c ∉ providerIds) demoPass.
Proof.
  unfold demoPass, providerIds.
  repeat apply Forall_cons_2; try apply Forall_nil_2; simpl;
    rewrite !not_elem_of_cons; split_and!; try discriminate;
    apply not_elem_of_nil.
Qed.

Lemma flag_set_by_units_only_witness :
  Synth.run "lib" demoPass initial = Some ((), demoWorld) ∧
  isLogGroupConfigured demoWorld = true.
Proof.
  split; [exact demoPass_runs|].
  exact (flag_set_by_units_only "lib" demoPass initial demoWorld demoPass_runs).
Defined.

Lemma enable_resource_properties_witness :
  EnableAwsServiceAccess.constructor "lib" ["Organizations"] "Macie"
    demoAccess demoWorld = Some (demoEnable.1, demoEnable.2) ∧
  ∃ cr,
    tree demoEnable.2 !! ["Resource"; "Macie"; "Organizations"]
    = Some (CustomResource cr []) ∧
    properties cr = [ ("partition", Aws_PARTITION);
                      ("servicePrincipal", VStr "config.amazonaws.com") ].
Proof.
  split; [exact demoEnable_runs|].
  destruct (enable_resource_properties "lib" _ _ _ _ _ _ demoEnable_runs)
    as (cr & H1 & _ & H2).
  exists cr. split; [exact H1|exact H2].
Defined.


Lemma first_unit_rejects_retention_witness :
  isLogGroupConfigured demoFresh = false ∧
  (OrganizationalUnit.logRetentionInDays (demoUnit "Security" 0) ≤ 0)%Z ∧
  OrganizationalUnit.constructor "lib" ["Organizations"] "Security"
    (demoUnit "Security" 0) demoFresh = None.
Proof.
  assert (OrganizationalUnit.logRetentionInDays (demoUnit "Security" 0) ≤ 0)%Z
    as Hle by (simpl; lia).
  split; [exact demoFresh_flag|]. split; [exact Hle|].
  exact (first_unit_rejects_retention "lib" ["Organizations"] "Security"
           (demoUnit "Security" 0) demoFresh demoFresh_flag Hle).
Defined.



Lemma pass_keeps_constructs_witness :
  Synth.run "lib" (demoPass ++ [ Synth.NewStack [] "Accounts" ]) initial
  = Some ((), demoTwoStacks) ∧
  ∃ w1, Synth.run "lib" demoPass initial = Some ((), w1) ∧
        ∀ p n, tree w1 !! p = Some n → tree demoTwoStacks !! p = Some n.
Proof.
  split; [exact demoTwoStacks_runs|].
  destruct (pass_keeps_constructs "lib" demoPass
              [ Synth.NewStack [] "Accounts" ] demoTwoStacks demoTwoStacks_runs)
    as (w1 & H1 & _ & H2).
  exists w1. split; [exact H1|exact H2].
Defined.


Lemma other_stack_handler_unlogged_witness :
  Synth.run "lib" (demoPass ++ [ Synth.NewStack [] "Accounts" ]) initial
  = Some ((), demoTwoStacks) ∧
  Synth.organizationalUnits (demoPass ++ [ Synth.NewStack [] "Accounts" ]) ≠ [] ∧
  stackOf (tree demoTwoStacks) ["Accounts"] = Some ["Accounts"] ∧
  tree demoTwoStacks !! [providerId OrganizationalUnit.uniqueid; "Accounts"]
  = None ∧
  "Suspended" ≠ providerId OrganizationalUnit.uniqueid ∧
  OrganizationalUnit.constructor "lib" ["Accounts"] "Suspended"
    (demoUnit "Suspended" 30) demoTwoStacks = Some (demoOther.1, demoOther.2) ∧
  tree demoOther.2
    !! ["Handler"; providerId OrganizationalUnit.uniqueid; "Accounts"]
  = Some (ProviderHandler NODEJS_14_X
            (path_join "lib" "create-organizational-unit/dist")).
Proof.
  assert (Synth.organizationalUnits
            (demoPass ++ [ Synth.NewStack [] "Accounts" ]) ≠ []) as Hne
    by discriminate.
  assert (stackOf (tree demoTwoStacks) ["Accounts"] = Some ["Accounts"])
    as Hst by by_vm.
  assert (tree demoTwoStacks
            !! [providerId OrganizationalUnit.uniqueid; "Accounts"] = None)
    as Hfree by by_vm.
  assert ("Suspended" ≠ providerId OrganizationalUnit.uniqueid) as Hid
    by discriminate.
  split; [exact demoTwoStacks_runs|]. split; [exact Hne|].
  split; [exact Hst|]. split; [exact Hfree|]. split; [exact Hid|].
  split; [exact demoOther_runs|].
  destruct (other_stack_handler_unlogged "lib" _ demoTwoStacks ["Accounts"]
              "Suspended" (demoUnit "Suspended" 30) _ _ ["Accounts"]
              demoTwoStacks_runs Hne Hst Hfree Hid demoOther_runs)
    as (_ & Hh & _).
  exact Hh.
Defined.

Lemma classes_use_different_providers_witness :
  let arn uid :=
    getAttString ["Handler"; providerId uid; "Organizations"] "Arn" in
  let cr1 :=
    enableResourceProps demoAccess (Some (arn EnableAwsServiceAccess.uniqueid)) in
  let cr2 :=
    orgUnitResourceProps (demoUnit "Workloads" 0)
      (Some (arn OrganizationalUnit.uniqueid)) in
  Synth.run "lib" demoPass initial = Some ((), demoWorld) ∧
  tree demoWorld !! ["Config"; "Organizations"]
    = Some (Instance EnableAwsServiceAccess.className) ∧
  tree demoWorld !! ["Workloads"; "Organizations"]
    = Some (Instance OrganizationalUnit.className) ∧
  tree demoWorld !! ["Resource"; "Config"; "Organizations"]
    = Some (CustomResource cr1 []) ∧
  tree demoWorld !! ["Resource"; "Workloads"; "Organizations"]
    = Some (CustomResource cr2 []) ∧
  serviceToken cr1 = Some (arn EnableAwsServiceAccess.uniqueid) ∧
  serviceToken cr2 ≠ Some (arn EnableAwsServiceAccess.uniqueid).
Proof.
  intros arn cr1 cr2.
  assert (tree demoWorld !! ["Config"; "Organizations"]
          = Some (Instance EnableAwsServiceAccess.className)) as H1 by by_vm.
  assert (tree demoWorld !! ["Workloads"; "Organizations"]
          = Some (Instance OrganizationalUnit.className)) as H2 by by_vm.
  assert (tree demoWorld !! ["Resource"; "Config"; "Organizations"]
          = Some (CustomResource cr1 [])) as H3 by by_vm.
  assert (tree demoWorld !! ["Resource"; "Workloads"; "Organizations"]
          = Some (CustomResource cr2 [])) as H4 by by_vm.
  assert (serviceToken cr1 = Some (arn EnableAwsServiceAccess.uniqueid))
    as H5 by reflexivity.
  split; [exact demoPass_runs|]. split; [exact H1|]. split; [exact H2|].
  split; [exact H3|]. split; [exact H4|]. split; [exact H5|].
  exact (classes_use_different_providers "lib" demoPass demoWorld _ _ _ _ _ _ _
           demoPass_runs H1 H2 H3 H4 H5).
Defined.

Lemma service_token_defined_witness :
  Synth.run "lib" demoPass initial = Some ((), demoWorld) ∧
  Forall (λ c, cmdId c ∉ providerIds) demoPass ∧
  tree demoWorld !! ["Workloads"; "Organizations"]
    = Some (Instance OrganizationalUnit.className) ∧
  ∃ cr deps,
    tree demoWorld !! ["Resource"; "Workloads"; "Organizations"]
      = Some (CustomResource cr deps) ∧
    is_Some (serviceToken cr).
Proof.
  assert (tree demoWorld !! ["Workloads"; "Organizations"]
          = Some (Instance OrganizationalUnit.className)) as H by by_vm.
  split; [exact demoPass_runs|]. split; [exact demoPass_ids|].
  split; [exact H|].
  destruct (service_token_defined "lib" demoPass demoWorld _ _
              demoPass_runs demoPass_ids H)
    as (uid & pp & s & cr & deps & _ & _ & Hr & Htok & _).
  exists cr, deps. split; [exact Hr|]. rewrite Htok. eexists. reflexivity.
Defined.

Lemma second_pass_without_log_group_witness :
  Synth.run "lib" demoPass initial = Some ((), demoWorld) ∧
  Synth.organizationalUnits demoPass ≠ [] ∧
  Synth.run "lib" demoSecondPass
    {| isLogGroupConfigured := isLogGroupConfigured demoWorld;
       tree := tree initial |} = Some ((), demoSecond) ∧
  Synth.organizationalUnits demoSecondPass ≠ [] ∧
  Synth.logGroups (tree demoSecond) = ∅.
Proof.
  assert (Synth.organizationalUnits demoPass ≠ []) as Hne by discriminate.
  assert (Synth.organizationalUnits demoSecondPass ≠ []) as Hne2
    by discriminate.
  split; [exact demoPass_runs|]. split; [exact Hne|].
  split; [exact demoSecond_runs|]. split; [exact Hne2|].
  exact (second_pass_without_log_group "lib" demoPass demoSecondPass demoWorld
           demoSecond demoPass_runs Hne demoSecond_runs).
Defined.


